(** * DacAdvancedControl: the advanced-feature controller of the ES9218 DAC

    A shallow embedding of
    [interfaces/hardware/audio/dac/control/1.0/default/DacAdvancedControl.cpp]
    and the properties of its four HIDL entry points.

    The class keeps three strings and a vector of features, and talks to
    two collaborators: the filesystem (sysfs control files) and the
    Android property store.  Both are modelled as an explicit [World]
    that every method threads through a small state-and-failure monad. *)

From Stdlib Require Import ZArith Ascii String Lia Bool.
From stdpp Require Import base option list gmap strings.

Local Open Scope Z_scope.

(** ** Text helpers of the C++ and C libraries the code calls *)

Module Text.

(** Whether [s] begins with [needle]. *)
Fixpoint starts_with (needle s : string) {struct needle} : bool :=
  match needle with
  | EmptyString => true
  | String a needle' =>
      match s with
      | EmptyString => false
      | String b s' => Ascii.eqb a b && starts_with needle' s'
      end
  end.

(** [std::string::find(needle)] from position 0; [None] is [npos]. *)
Fixpoint find (needle s : string) : option nat :=
  if starts_with needle s then Some O
  else match s with
       | EmptyString => None
       | String _ s' => S <$> find needle s'
       end.

Definition empty (s : string) : bool :=
  match s with EmptyString => true | String _ _ => false end.

Fixpoint last_char (s : string) : option ascii :=
  match s with
  | EmptyString => None
  | String c EmptyString => Some c
  | String _ s' => last_char s'
  end.

(** Decimal rendering of an [int], as [std::to_string] and
    [std::ostream::operator<<(int)] produce it: an optional minus sign
    and the digits without leading zeros. *)
Definition digit_char (d : Z) : ascii := ascii_of_nat (48 + Z.to_nat d).

Fixpoint to_digits (fuel : nat) (n : Z) (acc : string) : string :=
  match fuel with
  | O => acc
  | S fuel' =>
      let acc' := String (digit_char (n mod 10)) acc in
      if n / 10 =? 0 then acc' else to_digits fuel' (n / 10) acc'
  end.

(** A number below [2^k] has at most [k] decimal digits, so the fuel
    below always suffices (lemma [digits_fuel_enough]). *)
Definition digits_fuel (n : Z) : nat := S (Z.to_nat (Z.log2 n)).

Definition to_string (v : Z) : string :=
  if v <? 0 then String "-" (to_digits (digits_fuel (- v)) (- v) "")
  else to_digits (digits_fuel v) v "".

(** [isspace], [isxdigit] and the digit value of a character in the C
    locale. *)
Definition isspace (c : ascii) : bool :=
  let n := nat_of_ascii c in
  (Nat.eqb n 32 || (Nat.leb 9 n && Nat.leb n 13))%bool.

Definition digit_value (c : ascii) : option Z :=
  let n := Z.of_nat (nat_of_ascii c) in
  if (48 <=? n) && (n <=? 57) then Some (n - 48)
  else if (97 <=? n) && (n <=? 122) then Some (n - 87)
  else if (65 <=? n) && (n <=? 90) then Some (n - 55)
  else None.

Definition isdigit (c : ascii) : bool :=
  let n := Z.of_nat (nat_of_ascii c) in (48 <=? n) && (n <=? 57).

Definition isxdigit (c : ascii) : bool :=
  match digit_value c with
  | Some d => d <? 16
  | None => false
  end.

Fixpoint skip_space (s : string) : string :=
  match s with
  | String c s' => if isspace c then skip_space s' else s
  | EmptyString => s
  end.

(** The digit loop of [strtoimax]: consumes the longest run of digits
    of the base and returns the accumulated magnitude and how many
    characters it consumed. *)
Fixpoint accumulate (base : Z) (s : string) (acc : Z) (consumed : nat)
  : Z * nat :=
  match s with
  | String c s' =>
      match digit_value c with
      | Some d =>
          if d <? base then accumulate base s' (acc * base + d) (S consumed)
          else (acc, consumed)
      | None => (acc, consumed)
      end
  | EmptyString => (acc, consumed)
  end.

Definition INTMAX_MAX : Z := 2 ^ 63 - 1.
Definition INTMAX_MIN : Z := - 2 ^ 63.

(** What a call [strtoimax(buf, &end, 0)] reports: the value, whether
    [errno] was set to [ERANGE], and whether [end == buf] (no
    conversion was performed). *)
Record strto_result := {
  strto_value : Z;
  strto_erange : bool;
  strto_end_is_buf : bool
}.

Definition take_sign (s : string) : bool * string :=
  match s with
  | String "-" s' => (true, s')
  | String "+" s' => (false, s')
  | _ => (false, s)
  end.

(** Base inference for base 0: a [0x]/[0X] prefix followed by a hex
    digit selects 16 and is skipped, a leading [0] selects 8, anything
    else 10. *)
Definition infer_base (s : string) : Z * string :=
  match s with
  | String "0" (String x (String h r)) =>
      if ((Ascii.eqb x "x" || Ascii.eqb x "X") && isxdigit h)%bool
      then (16, String h r) else (8, s)
  | String "0" _ => (8, s)
  | _ => (10, s)
  end.

(** The end of [strtoimax]: nothing consumed means no conversion;
    a value outside [intmax_t] is clamped and flagged. *)
Definition conclude (neg : bool) (r : Z * nat) : strto_result :=
  match r.2 with
  | O => {| strto_value := 0; strto_erange := false; strto_end_is_buf := true |}
  | S _ =>
      let v := if neg then - r.1 else r.1 in
      if v <? INTMAX_MIN
      then {| strto_value := INTMAX_MIN; strto_erange := true; strto_end_is_buf := false |}
      else if INTMAX_MAX <? v
      then {| strto_value := INTMAX_MAX; strto_erange := true; strto_end_is_buf := false |}
      else {| strto_value := v; strto_erange := false; strto_end_is_buf := false |}
  end.

Definition strtoimax (buf : string) : strto_result :=
  let '(neg, s) := take_sign (skip_space buf) in
  let '(base, s) := infer_base s in
  conclude neg (accumulate base s 0 O).

End Text.

(** ** Data model *)

(** The HIDL enum [AdvancedFeature].  A C++ scoped enum with a fixed
    underlying type can hold values that are none of its enumerators (a
    client can send any [int32_t] over the wire), which is what the
    [default:] branches of the dispatch switches are for. *)
Inductive AdvancedFeature :=
  | AVCVolume
  | HifiMode
  | OutOfEnum (raw : Z).

#[global] Instance AdvancedFeature_eq_dec : EqDecision AdvancedFeature.
Proof. solve_decision. Defined.

Record Range := { min : Z; max : Z; step : Z }.

Record KeyValue := { name : string; value : string }.

(** [FeatureStates] has a [range] and a vector of [states].  A
    default-initialised [FeatureStates] has an empty vector and a range
    that nobody assigned: [None] stands for that indeterminate range. *)
Record FeatureStates := {
  range : option Range;
  states : list KeyValue
}.

(** A local [int32_t] that is declared without an initialiser. *)
Inductive local_int32 :=
  | Uninitialized
  | Initialized (v : Z).

Definition INT32_MIN : Z := - 2 ^ 31.
Definition INT32_MAX : Z := 2 ^ 31 - 1.

Definition int32 (v : Z) : Prop := INT32_MIN <= v <= INT32_MAX.

(** Two's-complement result of 32-bit signed arithmetic. *)
Definition wrap32 (z : Z) : Z := (z + 2 ^ 31) mod 2 ^ 32 - 2 ^ 31.

(** Members of the class. *)
Record DacAdvancedControl := {
  mDacBasePath : string;
  avcPath : string;
  hifiPath : string;
  mSupportedAdvancedFeatures : list AdvancedFeature
}.

(** Constants of [DacAdvancedControl.h], which is not part of the
    sources at hand: they are parameters of the development.  The two
    defaults are handed to [property_get_int32] as [int32_t]. *)
Class Constants := {
  COMMON_ES9218_PATH : string;
  AVC_VOLUME : string;
  HIFI_MODE : string;
  PROPERTY_HIFI_DAC_AVC_VOLUME : string;
  PROPERTY_HIFI_DAC_MODE : string;
  AVC_VOLUME_DEFAULT : Z;
  HIFI_MODE_DEFAULT : Z;
  AVC_VOLUME_DEFAULT_int32 : int32 AVC_VOLUME_DEFAULT;
  HIFI_MODE_DEFAULT_int32 : int32 HIFI_MODE_DEFAULT
}.

(** ** The world outside the process *)

Record dir_entry := { d_name : string; d_is_directory : bool }.

(** Calls that reach the kernel control files or the property service,
    with the text they carry. *)
Inductive io_event :=
  | WriteFile (path text : string)
  | SetProperty (key text : string).

(** - [dirs]: the directories that can be opened, with their entries in
      iteration order;
    - [files]: the paths that exist, with the text last written to them;
    - [writable]: the paths an [std::ofstream] manages to open;
    - [props]: the property store;
    - [settable]: the keys the property service lets this process set;
    - [io]: the writes issued so far, oldest first. *)
Record World := {
  dirs : gmap string (list dir_entry);
  files : gmap string string;
  writable : string -> bool;
  props : gmap string string;
  settable : string -> bool;
  io : list io_event
}.

Inductive severity := INFO | ERROR.

Record Sys := {
  self : DacAdvancedControl;
  world : World;
  logcat : list (severity * string)
}.

(** ** State and failure *)

(** A computation reads and updates the object and the world; [None] is
    an exception nobody catches. *)
Definition M (A : Type) : Type := Sys -> option (A * Sys).

Definition ret {A} (a : A) : M A := fun s => Some (a, s).

Definition bind {A B} (m : M A) (k : A -> M B) : M B :=
  fun s => match m s with
           | Some (a, s') => k a s'
           | None => None
           end.

Definition throw {A} : M A := fun _ => None.

Declare Scope dac_scope.
Delimit Scope dac_scope with dac.
Notation "'let*' x := m 'in' k" := (bind m (fun x => k))
  (at level 10, x name, m at level 100, k at level 200) : dac_scope.
Notation "m ;; k" := (bind m (fun _ => k))
  (at level 100, k at level 200, right associativity) : dac_scope.

Definition with_self (c : DacAdvancedControl) (s : Sys) : Sys :=
  {| self := c; world := world s; logcat := logcat s |}.

Definition with_world (w : World) (s : Sys) : Sys :=
  {| self := self s; world := w; logcat := logcat s |}.

Definition with_log (sev : severity) (msg : string) (s : Sys) : Sys :=
  {| self := self s; world := world s; logcat := logcat s ++ [(sev, msg)] |}.

Definition this : M DacAdvancedControl := fun s => Some (self s, s).

Definition modify_self (f : DacAdvancedControl -> DacAdvancedControl) : M unit :=
  fun s => Some (tt, with_self (f (self s)) s).

Definition the_world : M World := fun s => Some (world s, s).

Definition put_world (w : World) : M unit :=
  fun s => Some (tt, with_world w s).

Definition LOG (sev : severity) (msg : string) : M unit :=
  fun s => Some (tt, with_log sev msg s).

Definition set_mDacBasePath (p : string) (c : DacAdvancedControl) :=
  {| mDacBasePath := p; avcPath := avcPath c; hifiPath := hifiPath c;
     mSupportedAdvancedFeatures := mSupportedAdvancedFeatures c |}.

Definition set_avcPath (p : string) (c : DacAdvancedControl) :=
  {| mDacBasePath := mDacBasePath c; avcPath := p; hifiPath := hifiPath c;
     mSupportedAdvancedFeatures := mSupportedAdvancedFeatures c |}.

Definition set_hifiPath (p : string) (c : DacAdvancedControl) :=
  {| mDacBasePath := mDacBasePath c; avcPath := avcPath c; hifiPath := p;
     mSupportedAdvancedFeatures := mSupportedAdvancedFeatures c |}.

Definition push_back (f : AdvancedFeature) (c : DacAdvancedControl) :=
  {| mDacBasePath := mDacBasePath c; avcPath := avcPath c; hifiPath := hifiPath c;
     mSupportedAdvancedFeatures := mSupportedAdvancedFeatures c ++ [f] |}.

(** Every member default-initialised, as on entry to the constructor. *)
Definition fresh_object : DacAdvancedControl :=
  {| mDacBasePath := ""; avcPath := ""; hifiPath := "";
     mSupportedAdvancedFeatures := [] |}.

Definition boot (w : World) : Sys :=
  {| self := fresh_object; world := w; logcat := [] |}.

(** ** Platform calls *)

Section Platform.

Local Open Scope dac_scope.

(** [std::filesystem::path::operator/]: a separator is put between the
    two parts unless the left one is empty or already ends with one. *)
Definition path_append (p file : string) : string :=
  match Text.last_char p with
  | None => file
  | Some c => if Ascii.eqb c "/" then p +:+ file else p +:+ "/" +:+ file
  end.

(** [std::filesystem::directory_iterator(p)]: the entries of [p], or a
    [filesystem_error] when [p] cannot be opened as a directory. *)
Definition directory_iterator (p : string) : M (list dir_entry) :=
  let* w := the_world in
  match dirs w !! p with
  | Some entries => ret entries
  | None => throw
  end.

(** [std::filesystem::exists(p)]; the empty path names nothing.  Errors
    of the underlying [stat] other than absence are left out, here and
    for [is_directory]. *)
Definition fs_exists (w : World) (p : string) : bool :=
  negb (Text.empty p) && bool_decide (is_Some (files w !! p)).

Definition exists_ (p : string) : M bool :=
  let* w := the_world in ret (fs_exists w p).

(** [property_set] of libcutils: 0 on success, a negative number on
    failure.  The service refuses keys the caller may not set and
    values of [PROP_VALUE_MAX] characters or more. *)
Definition PROP_VALUE_MAX : nat := 92.

Definition property_accepts (w : World) (key text : string) : bool :=
  settable w key && bool_decide (String.length text < PROP_VALUE_MAX)%nat.

Definition store_property (key text : string) (w : World) : World :=
  {| dirs := dirs w; files := files w; writable := writable w;
     props := if property_accepts w key text then <[key := text]> (props w)
              else props w;
     settable := settable w;
     io := io w ++ [SetProperty key text] |}.

Definition property_set (key text : string) : M Z :=
  let* w := the_world in
  put_world (store_property key text w) ;;
  ret (if property_accepts w key text then 0 else -1).

(** [property_get(key, buf, "")]: the stored text, the empty default
    otherwise; its length is what the call returns. *)
Definition property_get (w : World) (key : string) : string :=
  match props w !! key with
  | Some text => text
  | None => ""
  end.

(** [property_get_imax] of libcutils: the default is returned when the
    property is empty or missing, when [strtoimax] over- or underflows,
    when the number is outside the bounds, and when no conversion took
    place. *)
Definition property_get_imax (w : World) (key : string)
    (lower_bound upper_bound default_value : Z) : Z :=
  let buf := property_get w key in
  if (0 <? String.length buf)%nat then
    let r := Text.strtoimax buf in
    let result := Text.strto_value r in
    if ((result =? Text.INTMAX_MIN) || (result =? Text.INTMAX_MAX))
       && Text.strto_erange r
    then default_value
    else if (result <? lower_bound) || (upper_bound <? result)
    then default_value
    else if Text.strto_end_is_buf r then default_value
    else result
  else default_value.

Definition property_get_int32 (key : string) (default_value : Z) : M Z :=
  let* w := the_world in
  ret (property_get_imax w key INT32_MIN INT32_MAX default_value).

(** The conversion [(bool)rc] of an [int]. *)
Definition bool_of_int (rc : Z) : bool := negb (rc =? 0).

End Platform.

(** ** The class *)

Section Class.

Context `{Constants}.

Local Open Scope dac_scope.

(** [set<int>(path, value)]: open an [std::ofstream] on [path], stream
    the value into it and close it.  A stream that failed to open
    swallows the output. *)
Definition store_file (path text : string) (w : World) : World :=
  {| dirs := dirs w;
     files := if writable w path then <[path := text]> (files w)
              else files w;
     writable := writable w; props := props w; settable := settable w;
     io := io w ++ [WriteFile path text] |}.

Definition set (path : string) (v : Z) : M unit :=
  let* w := the_world in
  put_world (store_file path (Text.to_string v) w).

(** [(-1)*value] is computed in [int]; where it overflows (C++ leaves
    that undefined) the model takes the two's-complement result. *)
Definition writeAvcVolumeState (v : Z) : M bool :=
  let* c := this in
  set (avcPath c) (wrap32 ((-1) * v)) ;;
  let* rc := property_set PROPERTY_HIFI_DAC_AVC_VOLUME (Text.to_string v) in
  ret (bool_of_int rc).

Definition writeHifiModeState (v : Z) : M bool :=
  let* c := this in
  set (hifiPath c) v ;;
  let* rc := property_set PROPERTY_HIFI_DAC_MODE (Text.to_string v) in
  ret (bool_of_int rc).

Definition getAvcVolumeState : M Z :=
  property_get_int32 PROPERTY_HIFI_DAC_AVC_VOLUME AVC_VOLUME_DEFAULT.

Definition getHifiModeState : M Z :=
  property_get_int32 PROPERTY_HIFI_DAC_MODE HIFI_MODE_DEFAULT.

(** The [for] loop of the constructor: the first entry that is a
    directory and whose path contains ["0048"] becomes the base path
    and ends the loop. *)
Fixpoint scan_entries (entries : list dir_entry) : M unit :=
  match entries with
  | [] => ret tt
  | entry :: rest =>
      let path := path_append COMMON_ES9218_PATH (d_name entry) in
      if d_is_directory entry then
        match Text.find "0048" path with
        | Some _ => modify_self (set_mDacBasePath path)
        | None => scan_entries rest
        end
      else scan_entries rest
  end.

Definition constructor : M unit :=
  let* entries := directory_iterator COMMON_ES9218_PATH in
  scan_entries entries ;;
  let* c := this in
  if Text.empty (mDacBasePath c) then
    LOG ERROR "DacAdvancedControl: No ES9218 path found, exiting..."
  else
    LOG INFO ("DacAdvancedControl: mDacBasePath: " +:+ mDacBasePath c) ;;
    modify_self (set_avcPath (mDacBasePath c +:+ AVC_VOLUME)) ;;
    modify_self (set_hifiPath (mDacBasePath c +:+ HIFI_MODE)) ;;
    let* c := this in
    let* avc := exists_ (avcPath c) in
    (if avc then
       LOG INFO "DacAdvancedControl: add avc feature" ;;
       modify_self (push_back AVCVolume) ;;
       let* v := getAvcVolumeState in
       writeAvcVolumeState v ;; ret tt
     else ret tt) ;;
    let* hifi := exists_ (hifiPath c) in
    (if hifi then
       LOG INFO "DacAdvancedControl: add hifi feature" ;;
       modify_self (push_back HifiMode) ;;
       let* v := getHifiModeState in
       writeHifiModeState v ;; ret tt
     else ret tt).

(** The methods that answer through [_hidl_cb] return the arguments of
    the calls of the callback, in order. *)
Definition getSupportedAdvancedFeatures : M (list (list AdvancedFeature)) :=
  let* c := this in
  ret [mSupportedAdvancedFeatures c].

Definition getAvcVolumeStates : FeatureStates :=
  {| range := Some {| min := -24; max := 0; step := 1 |}; states := [] |}.

Definition hifi_modes : list KeyValue :=
  [ {| name := "Normal"; value := "0" |};
    {| name := "High Impedance"; value := "1" |};
    {| name := "AUX"; value := "2" |} ].

Definition getHifiModeStates : FeatureStates :=
  {| range := None; states := hifi_modes |}.

(** [std::find(begin, end, feature) != end]. *)
Definition std_find (l : list AdvancedFeature) (feature : AdvancedFeature) : bool :=
  bool_decide (feature ∈ l).

Definition getSupportedAdvancedFeatureValues (feature : AdvancedFeature)
  : M (list FeatureStates) :=
  let* c := this in
  if std_find (mSupportedAdvancedFeatures c) feature then
    match feature with
    | AVCVolume => ret [getAvcVolumeStates]
    | HifiMode => ret [getHifiModeStates]
    | _ => ret []
    end
  else
    LOG ERROR "DacAdvancedControl::getSupportedAdvancedFeatureValues: tried to get values for unsupported Feature..." ;;
    ret [].

(** The search loop shared by [setFeatureValue] and [getFeatureValue]:
    the first element equal to [feature] logs [found] and ends it. *)
Fixpoint feature_loop (found : string) (l : list AdvancedFeature)
    (feature : AdvancedFeature) : M bool :=
  match l with
  | [] => ret false
  | f :: l' =>
      if decide (f = feature) then LOG INFO found ;; ret true
      else feature_loop found l' feature
  end.

Definition setFeatureValue (feature : AdvancedFeature) (v : Z) : M bool :=
  let* c := this in
  let* feature_available :=
    feature_loop "DacAdvancedControl: setFeatureValue: feature found"
                 (mSupportedAdvancedFeatures c) feature in
  if negb feature_available then
    LOG ERROR "DacAdvancedControl::setFeatureValue: tried to set value for unsupported Feature..." ;;
    ret false
  else
    match feature with
    | AVCVolume => writeAvcVolumeState v
    | HifiMode => writeHifiModeState v
    | _ => ret false
    end.

Definition getFeatureValue (feature : AdvancedFeature) : M local_int32 :=
  let r := Uninitialized in
  let* c := this in
  let* feature_available :=
    feature_loop "DacAdvancedControl: getFeatureValue: feature found"
                 (mSupportedAdvancedFeatures c) feature in
  if negb feature_available then
    LOG ERROR "DacAdvancedControl::getFeatureValue: tried to get value for unsupported Feature..." ;;
    ret (Initialized (-1))
  else
    match feature with
    | AVCVolume => let* v := getAvcVolumeState in ret (Initialized v)
    | HifiMode => let* v := getHifiModeState in ret (Initialized v)
    | _ => ret r
    end.

End Class.

(** ** Vocabulary of the properties *)

(** A text none of whose prefixes reads as a number: after the leading
    white space and an optional sign there is no decimal digit. *)
Definition starts_with_digit (s : string) : bool :=
  match s with
  | String c _ => Text.isdigit c
  | EmptyString => false
  end.

Definition not_numeric (text : string) : Prop :=
  starts_with_digit (Text.take_sign (Text.skip_space text)).2 = false.

Section Vocabulary.

Context `{Constants}.

(** The property and the default each feature is read with
    ([getAvcVolumeState], [getHifiModeState]). *)
Definition property_of (feature : AdvancedFeature) : option (string * Z) :=
  match feature with
  | AVCVolume => Some (PROPERTY_HIFI_DAC_AVC_VOLUME, AVC_VOLUME_DEFAULT)
  | HifiMode => Some (PROPERTY_HIFI_DAC_MODE, HIFI_MODE_DEFAULT)
  | OutOfEnum _ => None
  end.

(** The control file each feature is written to
    ([writeAvcVolumeState], [writeHifiModeState]). *)
Definition control_file (c : DacAdvancedControl) (feature : AdvancedFeature)
  : option string :=
  match feature with
  | AVCVolume => Some (avcPath c)
  | HifiMode => Some (hifiPath c)
  | OutOfEnum _ => None
  end.

(** The number each feature sends to its control file. *)
Definition kernel_value (feature : AdvancedFeature) (v : Z) : Z :=
  match feature with
  | AVCVolume => wrap32 ((-1) * v)
  | _ => v
  end.

(** Objects the constructor hands out. *)
Definition constructed (c : DacAdvancedControl) : Prop :=
  ∃ w0 s0, constructor (boot w0) = Some (tt, s0) ∧ self s0 = c.

(** The property service takes the write [setFeatureValue] issues. *)
Definition store_accepts (w : World) (feature : AdvancedFeature) (v : Z) : Prop :=
  ∃ key dflt,
    property_of feature = Some (key, dflt)
    ∧ property_accepts w key (Text.to_string v) = true.

(** [setFeatureValue feature v] streams [sent] into the control file
    of the feature and then hands [v] to the property service; a file
    that opens ends up holding the one, a service that accepts the
    other. *)
Definition sends (s : Sys) (feature : AdvancedFeature) (v sent : Z) : Prop :=
  ∃ path key dflt b s',
    control_file (self s) feature = Some path
    ∧ property_of feature = Some (key, dflt)
    ∧ setFeatureValue feature v s = Some (b, s')
    ∧ io (world s') = io (world s) ++ [WriteFile path (Text.to_string sent);
                                       SetProperty key (Text.to_string v)]
    ∧ (writable (world s) path = true →
       files (world s') !! path = Some (Text.to_string sent))
    ∧ (property_accepts (world s) key (Text.to_string v) = true →
       props (world s') !! key = Some (Text.to_string v)).

(** The property is missing or holds no number. *)
Definition unreadable (w : World) (key : string) : Prop :=
  props w !! key = None
  ∨ ∃ text, props w !! key = Some text ∧ not_numeric text.

(** The same object in front of another world. *)
Definition facing (c : DacAdvancedControl) (w : World)
    (l : list (severity * string)) : Sys :=
  {| self := c; world := w; logcat := l |}.

End Vocabulary.

Section Discovery.

Context `{Constants}.

(** The path the constructor's loop settles on, if any. *)
Fixpoint discover (entries : list dir_entry) : option string :=
  match entries with
  | [] => None
  | entry :: rest =>
      let path := path_append COMMON_ES9218_PATH (d_name entry) in
      if d_is_directory entry && bool_decide (is_Some (Text.find "0048" path))
      then Some path
      else discover rest
  end.

(** The supported list the two existence checks produce. *)
Definition probe (w : World) (c : DacAdvancedControl) : list AdvancedFeature :=
  (if fs_exists w (avcPath c) then [AVCVolume] else [])
  ++ (if fs_exists w (hifiPath c) then [HifiMode] else []).

End Discovery.

(** ** Vocabulary of the constructor's resynchronisation *)

Section Resynchronisation.

Context `{Constants}.

(** What the constructor does for one feature once the paths are set:
    if the control file is there, the number read from the property of
    the feature goes to the control file and back to the property. *)
Definition resynchronise (c : DacAdvancedControl) (feature : AdvancedFeature)
    (w : World) : World :=
  match control_file c feature, property_of feature with
  | Some path, Some (key, dflt) =>
      if fs_exists w path then
        let v := property_get_imax w key INT32_MIN INT32_MAX dflt in
        store_property key (Text.to_string v)
          (store_file path (Text.to_string (kernel_value feature v)) w)
      else w
  | _, _ => w
  end.


(** The number [getFeatureValue] reads for a feature of the enum. *)
Definition cached (w : World) (feature : AdvancedFeature) : option Z :=
  match property_of feature with
  | Some (key, dflt) => Some (property_get_imax w key INT32_MIN INT32_MAX dflt)
  | None => None
  end.

(** The world [u] answers the questions the constructor asks as [w]
    does: what exists, what can be written or set, and what the
    properties of the features read as. *)
Definition agrees (w u : World) : Prop :=
  (∀ p, fs_exists u p = fs_exists w p)
  ∧ writable u = writable w
  ∧ settable u = settable w
  ∧ (∀ feature, cached u feature = cached w feature).

End Resynchronisation.

(** ** A device to run the code on *)

Module Device.

(** Values in the style of the header; nothing below depends on them
    being the real ones. *)
Definition constants : Constants := {|
  COMMON_ES9218_PATH := "/sys/bus/i2c/drivers/es9218-codec/";
  AVC_VOLUME := "/avc_volume";
  HIFI_MODE := "/headset_type";
  PROPERTY_HIFI_DAC_AVC_VOLUME := "persist.vendor.lge.audio.hifi_adv.avc_volume";
  PROPERTY_HIFI_DAC_MODE := "persist.vendor.lge.audio.hifi_adv.mode";
  AVC_VOLUME_DEFAULT := -14;
  HIFI_MODE_DEFAULT := 0;
  AVC_VOLUME_DEFAULT_int32 := ltac:(unfold int32, INT32_MIN, INT32_MAX; lia);
  HIFI_MODE_DEFAULT_int32 := ltac:(unfold int32, INT32_MIN, INT32_MAX; lia)
|}.

Definition driver_dir : list dir_entry :=
  [ {| d_name := "bind"; d_is_directory := false |};
    {| d_name := "6-0048"; d_is_directory := true |};
    {| d_name := "module"; d_is_directory := true |} ].

(** A phone with the codec bound at I2C address 0x48 and both control
    files present. *)
Definition sysfs : World := {|
  dirs := {[ "/sys/bus/i2c/drivers/es9218-codec/" := driver_dir ]};
  files := {[ "/sys/bus/i2c/drivers/es9218-codec/6-0048/avc_volume" := "14";
              "/sys/bus/i2c/drivers/es9218-codec/6-0048/headset_type" := "0" ]};
  writable := fun _ => true;
  props := ∅;
  settable := fun _ => true;
  io := []
|}.

(** The same phone with only the volume control. *)
Definition sysfs_avc_only : World := {|
  dirs := dirs sysfs;
  files := {[ "/sys/bus/i2c/drivers/es9218-codec/6-0048/avc_volume" := "14" ]};
  writable := writable sysfs;
  props := {[ "persist.vendor.lge.audio.hifi_adv.mode" := "1" ]};
  settable := settable sysfs;
  io := []
|}.

(** The driver is loaded but no codec is bound to it. *)
Definition unbound : World := {|
  dirs := {[ "/sys/bus/i2c/drivers/es9218-codec/" :=
               [ {| d_name := "bind"; d_is_directory := false |};
                 {| d_name := "module"; d_is_directory := true |} ] ]};
  files := ∅;
  writable := fun _ => true;
  props := {[ "persist.vendor.lge.audio.hifi_adv.avc_volume" := "-7" ]};
  settable := fun _ => true;
  io := []
|}.

(** A kernel without the driver: the directory is not there. *)
Definition no_driver : World := {|
  dirs := ∅;
  files := ∅;
  writable := fun _ => true;
  props := ∅;
  settable := fun _ => true;
  io := []
|}.

(** The property holds text that is no number. *)
Definition garbled (w : World) : World := {|
  dirs := dirs w; files := files w; writable := writable w;
  props := <[ "persist.vendor.lge.audio.hifi_adv.avc_volume" := "loud" ]> (props w);
  settable := settable w; io := io w
|}.

(** The property service turns every write down. *)
Definition refusing (w : World) : World := {|
  dirs := dirs w; files := files w; writable := writable w;
  props := props w; settable := fun _ => false; io := io w
|}.

(** The object and the world the constructor leaves on [sysfs]
    (lemma [ready_constructed]). *)
Definition codec_object : DacAdvancedControl := {|
  mDacBasePath := "/sys/bus/i2c/drivers/es9218-codec/6-0048";
  avcPath := "/sys/bus/i2c/drivers/es9218-codec/6-0048/avc_volume";
  hifiPath := "/sys/bus/i2c/drivers/es9218-codec/6-0048/headset_type";
  mSupportedAdvancedFeatures := [AVCVolume; HifiMode]
|}.

Definition codec_world : World := {|
  dirs := dirs sysfs;
  files := files sysfs;
  writable := writable sysfs;
  props := {[ "persist.vendor.lge.audio.hifi_adv.avc_volume" := "-14";
              "persist.vendor.lge.audio.hifi_adv.mode" := "0" ]};
  settable := settable sysfs;
  io := [ WriteFile "/sys/bus/i2c/drivers/es9218-codec/6-0048/avc_volume" "14";
          SetProperty "persist.vendor.lge.audio.hifi_adv.avc_volume" "-14";
          WriteFile "/sys/bus/i2c/drivers/es9218-codec/6-0048/headset_type" "0";
          SetProperty "persist.vendor.lge.audio.hifi_adv.mode" "0" ]
|}.

Definition ready : Sys := {|
  self := codec_object;
  world := codec_world;
  logcat :=
    [ (INFO, "DacAdvancedControl: mDacBasePath: /sys/bus/i2c/drivers/es9218-codec/6-0048");
      (INFO, "DacAdvancedControl: add avc feature");
      (INFO, "DacAdvancedControl: add hifi feature") ]
|}.

(** An object no constructor builds: its list holds a value outside the
    enum. *)
Definition stray : Sys := {|
  self := {| mDacBasePath := ""; avcPath := ""; hifiPath := "";
             mSupportedAdvancedFeatures := [OutOfEnum 7] |};
  world := no_driver;
  logcat := []
|}.

(** The volume property holds a number followed by other text. *)
Definition suffixed (w : World) : World := {|
  dirs := dirs w; files := files w; writable := writable w;
  props := <[ "persist.vendor.lge.audio.hifi_adv.avc_volume" := "12abc" ]> (props w);
  settable := settable w; io := io w
|}.

(** No file can be opened for writing. *)
Definition sealed (w : World) : World := {|
  dirs := dirs w; files := files w; writable := fun _ => false;
  props := props w; settable := settable w; io := io w
|}.

(** The volume property holds a number no [int32_t] can hold. *)
Definition oversized (w : World) : World := {|
  dirs := dirs w; files := files w; writable := writable w;
  props := <[ "persist.vendor.lge.audio.hifi_adv.avc_volume" := "3000000000" ]> (props w);
  settable := settable w; io := io w
|}.

(** The same for [sysfs_avc_only] (lemma [volume_only_constructed]). *)
Definition volume_object : DacAdvancedControl := {|
  mDacBasePath := "/sys/bus/i2c/drivers/es9218-codec/6-0048";
  avcPath := "/sys/bus/i2c/drivers/es9218-codec/6-0048/avc_volume";
  hifiPath := "/sys/bus/i2c/drivers/es9218-codec/6-0048/headset_type";
  mSupportedAdvancedFeatures := [AVCVolume]
|}.

Definition volume_world : World := {|
  dirs := dirs sysfs;
  files := files sysfs_avc_only;
  writable := writable sysfs;
  props := {[ "persist.vendor.lge.audio.hifi_adv.avc_volume" := "-14";
              "persist.vendor.lge.audio.hifi_adv.mode" := "1" ]};
  settable := settable sysfs;
  io := [ WriteFile "/sys/bus/i2c/drivers/es9218-codec/6-0048/avc_volume" "14";
          SetProperty "persist.vendor.lge.audio.hifi_adv.avc_volume" "-14" ]
|}.

Definition volume_only : Sys := {|
  self := volume_object;
  world := volume_world;
  logcat :=
    [ (INFO, "DacAdvancedControl: mDacBasePath: /sys/bus/i2c/drivers/es9218-codec/6-0048");
      (INFO, "DacAdvancedControl: add avc feature") ]
|}.

End Device.

(** * Facts about the text helpers *)

Module TextFacts.
Import Text.

Lemma digit_value_digit_char (d : Z) :
  0 <= d <= 9 → digit_value (digit_char d) = Some d.
Proof.
  intros Hd.
  assert (Hc : d = 0 ∨ d = 1 ∨ d = 2 ∨ d = 3 ∨ d = 4 ∨ d = 5 ∨ d = 6
               ∨ d = 7 ∨ d = 8 ∨ d = 9) by lia.
  destruct Hc as [->|[->|[->|[->|[->|[->|[->|[->|[->| ->]]]]]]]]];
    reflexivity.
Qed.

Lemma accumulate_digit_char (d : Z) (s : string) (a : Z) (k : nat) :
  0 <= d <= 9 →
  accumulate 10 (String (digit_char d) s) a k = accumulate 10 s (a * 10 + d) (S k).
Proof.
  intros Hd. cbn [accumulate]. rewrite digit_value_digit_char by done.
  destruct (Z.ltb_spec d 10); [done | lia].
Qed.

(** Reading back the digits [to_digits] wrote: with fuel to spare the
    digit loop resumes after them with the number added in. *)
Lemma accumulate_to_digits (fuel : nat) :
  ∀ (n : Z) (acc : string),
    0 <= n < 2 ^ Z.of_nat (S fuel) →
    ∃ d : nat, ∀ (a : Z) (k : nat),
      accumulate 10 (to_digits (S fuel) n acc) a k
      = accumulate 10 acc (a * 10 ^ Z.of_nat (S d) + n) (S d + k).
Proof.
  induction fuel as [|fuel IH]; intros n acc Hn.
  - exists O. intros a k. cbn [to_digits].
    assert (n / 10 = 0) as -> by (apply Z.div_small; simpl in Hn; lia).
    rewrite Z.eqb_refl, accumulate_digit_char by (pose proof (Z.mod_pos_bound n 10); lia).
    rewrite Z.mod_small by (simpl in Hn; lia). reflexivity.
  - change (to_digits (S (S fuel)) n acc) with
      (let acc' := String (digit_char (n mod 10)) acc in
       if n / 10 =? 0 then acc' else to_digits (S fuel) (n / 10) acc').
    cbv zeta. destruct (Z.eqb_spec (n / 10) 0) as [Hq|Hq].
    + exists O. intros a k.
      rewrite accumulate_digit_char by (pose proof (Z.mod_pos_bound n 10); lia).
      f_equal. change (10 ^ Z.of_nat 1) with 10.
      pose proof (Z.div_mod n 10). lia.
    + assert (Hq' : 0 <= n / 10 < 2 ^ Z.of_nat (S fuel)).
      { split; [apply Z.div_pos; lia|].
        apply Z.div_lt_upper_bound; [lia|].
        rewrite (Nat2Z.inj_succ (S fuel)), Z.pow_succ_r in Hn by lia. lia. }
      destruct (IH (n / 10) (String (digit_char (n mod 10)) acc) Hq') as [d Hd].
      exists (S d). intros a k. rewrite Hd.
      rewrite accumulate_digit_char by (pose proof (Z.mod_pos_bound n 10); lia).
      f_equal.
      rewrite (Nat2Z.inj_succ (S d)), Z.pow_succ_r by lia.
      pose proof (Z.div_mod n 10). lia.
Qed.

Lemma digits_fuel_enough (n : Z) :
  0 <= n → 0 <= n < 2 ^ Z.of_nat (digits_fuel n).
Proof.
  intros Hn. split; [done|]. unfold digits_fuel.
  rewrite Nat2Z.inj_succ, Z2Nat.id by apply Z.log2_nonneg.
  destruct (Z.eq_dec n 0) as [->|Hne]; [done|].
  apply Z.log2_spec. lia.
Qed.

(** The most significant digit of a positive number is not zero. *)
Lemma to_digits_head (fuel : nat) :
  ∀ (n : Z) (acc : string),
    1 <= n < 2 ^ Z.of_nat (S fuel) →
    ∃ (m : Z) (r : string),
      1 <= m <= 9 ∧ to_digits (S fuel) n acc = String (digit_char m) r.
Proof.
  induction fuel as [|fuel IH]; intros n acc Hn.
  - simpl in Hn. assert (n = 1) as -> by lia. exists 1, acc. done.
  - change (to_digits (S (S fuel)) n acc) with
      (let acc' := String (digit_char (n mod 10)) acc in
       if n / 10 =? 0 then acc' else to_digits (S fuel) (n / 10) acc').
    cbv zeta. destruct (Z.eqb_spec (n / 10) 0) as [Hq|Hq].
    + exists (n mod 10), acc. split; [|done].
      pose proof (Z.div_mod n 10). pose proof (Z.mod_pos_bound n 10). lia.
    + apply IH. split.
      * pose proof (Z.div_pos n 10). lia.
      * apply Z.div_lt_upper_bound; [lia|].
        rewrite (Nat2Z.inj_succ (S fuel)), Z.pow_succ_r in Hn by lia. lia.
Qed.

Lemma to_digits_length (fuel : nat) :
  ∀ (n : Z) (acc : string),
    (String.length (to_digits fuel n acc) <= fuel + String.length acc)%nat.
Proof.
  induction fuel as [|fuel IH]; intros n acc; [done|].
  cbn [to_digits]. destruct (n / 10 =? 0).
  - simpl. lia.
  - etrans; [apply IH|]. simpl. lia.
Qed.

Lemma to_digits_nonempty (fuel : nat) (n : Z) (acc : string) :
  (0 < String.length (to_digits (S fuel) n acc))%nat.
Proof.
  revert n acc. induction fuel as [|fuel IH]; intros n acc.
  - cbn [to_digits]. destruct (n / 10 =? 0); simpl; lia.
  - change (to_digits (S (S fuel)) n acc) with
      (let acc' := String (digit_char (n mod 10)) acc in
       if n / 10 =? 0 then acc' else to_digits (S fuel) (n / 10) acc').
    cbv zeta. destruct (n / 10 =? 0); [simpl; lia | apply IH].
Qed.

End TextFacts.

Module StrtoFacts.
Import Text TextFacts.

Lemma strtoimax_unsigned (m : Z) (r : string) :
  1 <= m <= 9 →
  strtoimax (String (digit_char m) r)
  = conclude false (accumulate 10 (String (digit_char m) r) 0 O).
Proof.
  intros Hm.
  assert (Hc : m = 1 ∨ m = 2 ∨ m = 3 ∨ m = 4 ∨ m = 5 ∨ m = 6
               ∨ m = 7 ∨ m = 8 ∨ m = 9) by lia.
  destruct Hc as [->|[->|[->|[->|[->|[->|[->|[->| ->]]]]]]]]; reflexivity.
Qed.

Lemma strtoimax_negative (m : Z) (r : string) :
  1 <= m <= 9 →
  strtoimax (String "-" (String (digit_char m) r))
  = conclude true (accumulate 10 (String (digit_char m) r) 0 O).
Proof.
  intros Hm.
  assert (Hc : m = 1 ∨ m = 2 ∨ m = 3 ∨ m = 4 ∨ m = 5 ∨ m = 6
               ∨ m = 7 ∨ m = 8 ∨ m = 9) by lia.
  destruct Hc as [->|[->|[->|[->|[->|[->|[->|[->| ->]]]]]]]]; reflexivity.
Qed.

Lemma accumulate_digits (n : Z) :
  1 <= n →
  ∃ d : nat, accumulate 10 (to_digits (digits_fuel n) n "") 0 O = (n, S d).
Proof.
  intros Hn.
  destruct (accumulate_to_digits (Z.to_nat (Z.log2 n)) n "") as [d Hd].
  { apply (digits_fuel_enough n). lia. }
  exists d. unfold digits_fuel. rewrite Hd. cbn [accumulate].
  f_equal; lia.
Qed.

Lemma digits_head (n : Z) :
  1 <= n →
  ∃ (m : Z) (r : string),
    1 <= m <= 9 ∧ to_digits (digits_fuel n) n "" = String (digit_char m) r.
Proof.
  intros Hn. apply to_digits_head.
  pose proof (digits_fuel_enough n). unfold digits_fuel in *. lia.
Qed.

(** What [std::to_string] prints, [strtoimax] reads back. *)
Lemma strtoimax_to_string (v : Z) :
  INTMAX_MIN <= v <= INTMAX_MAX →
  strtoimax (to_string v)
  = {| strto_value := v; strto_erange := false; strto_end_is_buf := false |}.
Proof.
  intros Hv. unfold to_string.
  destruct (Z.ltb_spec v 0) as [Hneg|Hpos].
  - destruct (digits_head (- v)) as (m & r & Hm & Hr); [lia|].
    destruct (accumulate_digits (- v)) as [d Hd]; [lia|].
    rewrite Hr in Hd |- *. rewrite strtoimax_negative, Hd by done.
    unfold conclude. cbn [fst snd]. rewrite Z.opp_involutive.
    destruct (Z.ltb_spec v INTMAX_MIN); [lia|].
    destruct (Z.ltb_spec INTMAX_MAX v); [lia|]. done.
  - destruct (Z.eq_dec v 0) as [->|Hne]; [done|].
    destruct (digits_head v) as (m & r & Hm & Hr); [lia|].
    destruct (accumulate_digits v) as [d Hd]; [lia|].
    rewrite Hr in Hd |- *. rewrite strtoimax_unsigned, Hd by done.
    unfold conclude. cbn [fst snd].
    destruct (Z.ltb_spec v INTMAX_MIN); [lia|].
    destruct (Z.ltb_spec INTMAX_MAX v); [lia|]. done.
Qed.

Lemma to_string_nonempty (v : Z) : (0 < String.length (to_string v))%nat.
Proof.
  unfold to_string. destruct (v <? 0); [simpl; lia|].
  apply to_digits_nonempty.
Qed.

Lemma digits_fuel_int32 (n : Z) :
  0 <= n <= 2147483648 → (digits_fuel n <= 32)%nat.
Proof.
  intros Hn. unfold digits_fuel.
  assert (Z.log2 n <= 31); [|lia].
  change 31 with (Z.log2 2147483648). apply Z.log2_le_mono. lia.
Qed.

(** The decimal text of an [int32_t] fits a property value. *)
Lemma to_string_length (v : Z) :
  int32 v → (String.length (to_string v) < PROP_VALUE_MAX)%nat.
Proof.
  unfold int32, PROP_VALUE_MAX, to_string.
  change INT32_MIN with (-2147483648). change INT32_MAX with 2147483647.
  intros Hv. destruct (Z.ltb_spec v 0).
  - pose proof (to_digits_length (digits_fuel (- v)) (- v) "") as Hl.
    pose proof (digits_fuel_int32 (- v)).
    cbn [String.length] in *. lia.
  - pose proof (to_digits_length (digits_fuel v) v "") as Hl.
    pose proof (digits_fuel_int32 v).
    cbn [String.length] in *. lia.
Qed.

Lemma to_string_inj (v v' : Z) :
  INTMAX_MIN <= v <= INTMAX_MAX → INTMAX_MIN <= v' <= INTMAX_MAX →
  to_string v = to_string v' → v = v'.
Proof.
  intros Hv Hv' Heq.
  pose proof (strtoimax_to_string v Hv) as E.
  rewrite Heq, (strtoimax_to_string v' Hv') in E. congruence.
Qed.

End StrtoFacts.

(** * Facts about the platform calls *)

Section PlatformFacts.

Lemma property_accepts_store_file (path text key ptext : string) (w : World) :
  property_accepts (store_file path text w) key ptext = property_accepts w key ptext.
Proof. reflexivity. Qed.

Lemma property_accepts_int32 (w : World) (key : string) (v : Z) :
  int32 v → property_accepts w key (Text.to_string v) = settable w key.
Proof.
  intros Hv. unfold property_accepts.
  rewrite bool_decide_eq_true_2 by (by apply StrtoFacts.to_string_length).
  apply andb_true_r.
Qed.

(** A stored decimal text of an [int32_t] is read back as that number. *)
Lemma property_get_imax_stored (w : World) (key : string) (v dflt : Z) :
  int32 v →
  props w !! key = Some (Text.to_string v) →
  property_get_imax w key INT32_MIN INT32_MAX dflt = v.
Proof.
  unfold int32. intros Hv Hw. unfold property_get_imax, property_get.
  rewrite Hw.
  destruct (Nat.ltb_spec 0 (String.length (Text.to_string v))) as [_|Hl].
  2: { pose proof (StrtoFacts.to_string_nonempty v). lia. }
  rewrite StrtoFacts.strtoimax_to_string.
  2: { unfold INT32_MIN, INT32_MAX, Text.INTMAX_MIN, Text.INTMAX_MAX in *. lia. }
  cbn [Text.strto_value Text.strto_erange Text.strto_end_is_buf].
  rewrite andb_false_r.
  destruct (Z.ltb_spec v INT32_MIN); [lia|].
  destruct (Z.ltb_spec INT32_MAX v); [lia|]. done.
Qed.

Lemma property_get_imax_bounds (w : World) (key : string) (lo hi dflt : Z) :
  lo <= dflt <= hi → lo <= property_get_imax w key lo hi dflt <= hi.
Proof.
  intros Hd. unfold property_get_imax.
  repeat case_match; try done.
  match goal with
  | Hr : (_ <? lo) || (hi <? _) = false |- _ =>
      apply orb_false_elim in Hr as [Hlo%Z.ltb_ge Hhi%Z.ltb_ge]
  end. lia.
Qed.

Lemma property_get_imax_missing (w : World) (key : string) (lo hi dflt : Z) :
  props w !! key = None → property_get_imax w key lo hi dflt = dflt.
Proof.
  intros Hw. unfold property_get_imax, property_get. by rewrite Hw.
Qed.

Lemma isdigit_false_digit_value (c : ascii) (d : Z) :
  Text.isdigit c = false → Text.digit_value c = Some d → 10 <= d.
Proof.
  unfold Text.isdigit, Text.digit_value. intros ->.
  repeat case_match; intros [= <-]; lia.
Qed.

Lemma infer_base_no_digit (c : ascii) (s : string) :
  Text.isdigit c = false → Text.infer_base (String c s) = (10, String c s).
Proof.
  destruct c as [[] [] [] [] [] [] [] []]; try reflexivity.
  discriminate.
Qed.

(** Without a leading digit [strtoimax] converts nothing. *)
Lemma strtoimax_not_numeric (text : string) :
  not_numeric text → Text.strto_end_is_buf (Text.strtoimax text) = true.
Proof.
  unfold not_numeric, Text.strtoimax.
  destruct (Text.take_sign (Text.skip_space text)) as [neg s]. cbn [snd].
  destruct s as [|c s]; [done|]. cbn [starts_with_digit]. intros Hc.
  rewrite infer_base_no_digit by done. cbn [Text.accumulate].
  destruct (Text.digit_value c) as [d|] eqn:Hd; [|done].
  pose proof (isdigit_false_digit_value c d Hc Hd).
  destruct (Z.ltb_spec d 10); [lia | done].
Qed.

Lemma property_get_imax_not_numeric (w : World) (key text : string) (lo hi dflt : Z) :
  props w !! key = Some text → not_numeric text →
  property_get_imax w key lo hi dflt = dflt.
Proof.
  intros Hw Hn. unfold property_get_imax, property_get. rewrite Hw.
  rewrite (strtoimax_not_numeric text Hn).
  repeat case_match; done.
Qed.

End PlatformFacts.

(** * Facts about the methods *)

Section MethodFacts.

Context `{Constants}.

Local Open Scope dac_scope.

Lemma feature_loop_found (msg : string) (l : list AdvancedFeature)
    (feature : AdvancedFeature) (s : Sys) :
  feature ∈ l → feature_loop msg l feature s = Some (true, with_log INFO msg s).
Proof.
  induction l as [|f l IH]; intros Hin.
  - by apply elem_of_nil in Hin.
  - cbn [feature_loop]. destruct (decide (f = feature)) as [->|Hne]; [done|].
    apply IH. apply elem_of_cons in Hin as [->|]; done.
Qed.

Lemma feature_loop_missing (msg : string) (l : list AdvancedFeature)
    (feature : AdvancedFeature) (s : Sys) :
  feature ∉ l → feature_loop msg l feature s = Some (false, s).
Proof.
  induction l as [|f l IH]; intros Hin; [done|].
  cbn [feature_loop]. apply not_elem_of_cons in Hin as [Hne Hin].
  destruct (decide (f = feature)) as [->|_]; [done | by apply IH].
Qed.

(** The state a successful dispatch of [setFeatureValue] leaves. *)
Lemma setFeatureValue_supported (feature : AdvancedFeature) (v : Z) (s : Sys)
    (path key : string) (dflt : Z) :
  feature ∈ mSupportedAdvancedFeatures (self s) →
  control_file (self s) feature = Some path →
  property_of feature = Some (key, dflt) →
  setFeatureValue feature v s
  = Some (bool_of_int (if property_accepts (world s) key (Text.to_string v)
                       then 0 else -1),
          with_world
            (store_property key (Text.to_string v)
               (store_file path (Text.to_string (kernel_value feature v))
                  (world s)))
            (with_log INFO "DacAdvancedControl: setFeatureValue: feature found" s)).
Proof.
  intros Hin Hpath Hkey. unfold setFeatureValue, bind, this.
  rewrite feature_loop_found by done. cbn [negb].
  destruct feature; simplify_eq/=; reflexivity.
Qed.

Lemma setFeatureValue_unsupported (feature : AdvancedFeature) (v : Z) (s : Sys) :
  feature ∉ mSupportedAdvancedFeatures (self s) →
  setFeatureValue feature v s
  = Some (false,
          with_log ERROR "DacAdvancedControl::setFeatureValue: tried to set value for unsupported Feature..." s).
Proof.
  intros Hin. unfold setFeatureValue, bind, this.
  by rewrite feature_loop_missing.
Qed.

(** What [setFeatureValue] returns for a supported feature of the enum:
    whether the property service refused. *)
Lemma setFeatureValue_result (feature : AdvancedFeature) (v : Z) (s : Sys)
    (path key : string) (dflt : Z) :
  feature ∈ mSupportedAdvancedFeatures (self s) →
  control_file (self s) feature = Some path →
  property_of feature = Some (key, dflt) →
  int32 v →
  fst <$> setFeatureValue feature v s = Some (negb (settable (world s) key)).
Proof.
  intros Hin Hpath Hkey Hv.
  rewrite (setFeatureValue_supported _ _ _ path key dflt) by done.
  cbn. rewrite property_accepts_int32 by done.
  by destruct (settable (world s) key).
Qed.

Lemma getFeatureValue_supported (feature : AdvancedFeature) (s : Sys)
    (key : string) (dflt : Z) :
  feature ∈ mSupportedAdvancedFeatures (self s) →
  property_of feature = Some (key, dflt) →
  getFeatureValue feature s
  = Some (Initialized (property_get_imax (world s) key INT32_MIN INT32_MAX dflt),
          with_log INFO "DacAdvancedControl: getFeatureValue: feature found" s).
Proof.
  intros Hin Hkey. unfold getFeatureValue, bind, this.
  rewrite feature_loop_found by done. cbn [negb].
  destruct feature; simplify_eq/=; reflexivity.
Qed.

Lemma getFeatureValue_unsupported (feature : AdvancedFeature) (s : Sys) :
  feature ∉ mSupportedAdvancedFeatures (self s) →
  getFeatureValue feature s
  = Some (Initialized (-1),
          with_log ERROR "DacAdvancedControl::getFeatureValue: tried to get value for unsupported Feature..." s).
Proof.
  intros Hin. unfold getFeatureValue, bind, this.
  by rewrite feature_loop_missing.
Qed.

End MethodFacts.

(** * Facts about the constructor *)

Section ConstructorFacts.

Context `{Constants}.

Local Open Scope dac_scope.

Ltac run :=
  unfold LOG, ret, bind, this, modify_self, the_world, put_world, exists_,
    getAvcVolumeState, getHifiModeState, writeAvcVolumeState,
    writeHifiModeState, property_get_int32, property_set, set;
  cbn.

Lemma scan_entries_discover (entries : list dir_entry) (s : Sys) :
  scan_entries entries s
  = Some (tt, match discover entries with
              | Some p => with_self (set_mDacBasePath p (self s)) s
              | None => s
              end).
Proof.
  induction entries as [|entry rest IH]; [done|].
  cbn [scan_entries discover].
  destruct (d_is_directory entry); cbn [andb]; [|done].
  destruct (Text.find "0048" _) as [n|]; [done|].
  rewrite bool_decide_eq_false_2 by apply is_Some_None. done.
Qed.

Lemma fs_exists_store_property (key text p : string) (w : World) :
  fs_exists (store_property key text w) p = fs_exists w p.
Proof. reflexivity. Qed.

(** Writing to a path that exists creates nothing. *)
Lemma fs_exists_store_file (path text p : string) (w : World) :
  fs_exists w path = true →
  fs_exists (store_file path text w) p = fs_exists w p.
Proof.
  unfold fs_exists, store_file. cbn [files]. intros Hpath.
  destruct (andb_prop _ _ Hpath) as [_ Hp]. apply bool_decide_eq_true in Hp.
  destruct (writable w path); [|done]. f_equal.
  apply bool_decide_ext. rewrite lookup_insert_is_Some.
  split; [intros [<-|[_ ?]]; done|].
  intros Hq. destruct (decide (path = p)); [by left | by right].
Qed.

Lemma constructor_unlisted (w : World) :
  dirs w !! COMMON_ES9218_PATH = None → constructor (boot w) = None.
Proof.
  intros Hd. unfold constructor, bind, directory_iterator, bind, the_world.
  cbn [boot world]. by rewrite Hd.
Qed.

(** What the constructor leaves in the object. *)
Lemma constructor_object (w : World) (s : Sys) :
  constructor (boot w) = Some (tt, s) →
  ∃ entries,
    dirs w !! COMMON_ES9218_PATH = Some entries
    ∧ mDacBasePath (self s) = default "" (discover entries)
    ∧ (if Text.empty (mDacBasePath (self s))
       then avcPath (self s) = "" ∧ hifiPath (self s) = "" ∧ world s = w
       else avcPath (self s) = mDacBasePath (self s) +:+ AVC_VOLUME
            ∧ hifiPath (self s) = mDacBasePath (self s) +:+ HIFI_MODE)
    ∧ mSupportedAdvancedFeatures (self s) = probe w (self s).
Proof.
  unfold constructor, bind at 1. unfold directory_iterator, bind at 1.
  unfold the_world. cbn [boot world].
  destruct (dirs w !! COMMON_ES9218_PATH) as [entries|] eqn:Hd; [|done].
  unfold ret at 1. unfold bind at 1. rewrite scan_entries_discover.
  intros Hrun. exists entries. split; [done|]. revert Hrun.
  destruct (discover entries) as [base|] eqn:Hbase.
  2: { run. intros Hrun. injection Hrun as <-. done. }
  unfold bind at 1. unfold this at 1.
  cbn [self with_self set_mDacBasePath mDacBasePath].
  destruct (Text.empty base) eqn:Hempty.
  { destruct base; [|done]. run. intros Hrun. injection Hrun as <-. done. }
  unfold probe. run.
  destruct (fs_exists w (base +:+ AVC_VOLUME)) eqn:Havc;
    run; rewrite ?fs_exists_store_property, ?fs_exists_store_file by done;
    destruct (fs_exists w (base +:+ HIFI_MODE)) eqn:Hhifi;
    run; intros Hrun; injection Hrun as <-; cbn;
    rewrite Hempty, ?Havc, ?Hhifi; done.
Qed.

End ConstructorFacts.

(** * Facts about the path search *)

Module FindFacts.
Import Text.

Lemma append_cons (c : ascii) (x y : string) :
  String c x +:+ y = String c (x +:+ y).
Proof. reflexivity. Qed.

Lemma append_assoc (x y z : string) : (x +:+ y) +:+ z = x +:+ (y +:+ z).
Proof.
  induction x as [|c x IH]; [done|]. by rewrite !append_cons, IH.
Qed.

Lemma starts_with_app (n x y : string) :
  starts_with n x = true → starts_with n (x +:+ y) = true.
Proof.
  revert x. induction n as [|a n IH]; intros x; [done|].
  destruct x as [|b x]; [done|]. rewrite append_cons. cbn [starts_with].
  rewrite !andb_true_iff. intros [? ?]. split; [done | by apply IH].
Qed.

(** A character the needle does not contain stops every match that
    would run across it. *)
Lemma starts_with_sep (sep : ascii) (n x y : string) :
  sep ∉ list_ascii_of_string n →
  starts_with n (x +:+ String sep y) = true → starts_with n x = true.
Proof.
  revert x. induction n as [|a n IH]; intros x Hsep; [done|].
  cbn [list_ascii_of_string] in Hsep.
  apply not_elem_of_cons in Hsep as [Hne Hsep].
  destruct x as [|b x].
  - change ("" +:+ String sep y) with (String sep y). cbn [starts_with].
    destruct (Ascii.eqb_spec a sep); [congruence | done].
  - rewrite append_cons. cbn [starts_with]. rewrite !andb_true_iff.
    intros [? ?]. split; [done | by apply IH].
Qed.

Lemma find_None (n : string) (c : ascii) (s : string) :
  find n (String c s) = None
  ↔ starts_with n (String c s) = false ∧ find n s = None.
Proof.
  cbn [find]. destruct (starts_with n (String c s)).
  - split; [done | by intros [? _]].
  - destruct (find n s); cbn; split; try done. by intros [_ ?].
Qed.

Lemma find_empty_needle (s : string) : find "" s ≠ None.
Proof. by destruct s. Qed.

(** What is not in the whole is not in its beginning. *)
Lemma find_app_None_l (n x y : string) :
  find n (x +:+ y) = None → find n x = None.
Proof.
  induction x as [|c x IH].
  - destruct n; [|done]. intros Hy. by apply find_empty_needle in Hy.
  - rewrite append_cons, !find_None. intros [Hp Hf]. split; [|by apply IH].
    destruct (starts_with n (String c x)) eqn:Hpx; [|done].
    apply (starts_with_app _ _ y) in Hpx. rewrite append_cons in Hpx.
    congruence.
Qed.

Lemma find_app_sep (sep : ascii) (n a b : string) :
  sep ∉ list_ascii_of_string n →
  find n a = None → find n b = None →
  find n (a +:+ String sep b) = None.
Proof.
  intros Hsep Ha Hb. induction a as [|c a IH].
  - change ("" +:+ String sep b) with (String sep b).
    apply find_None. split; [|done].
    destruct (starts_with n (String sep b)) eqn:Hs; [|done].
    apply (starts_with_sep sep n "" b Hsep) in Hs.
    destruct n; [by apply find_empty_needle in Hb | done].
  - rewrite append_cons. apply find_None in Ha as [Hp Ha].
    apply find_None. split; [|by apply IH].
    destruct (starts_with n (String c (a +:+ String sep b))) eqn:Hs; [|done].
    rewrite <- append_cons in Hs. apply starts_with_sep in Hs; [|done].
    congruence.
Qed.

Lemma last_char_split (a : string) (c : ascii) :
  last_char a = Some c → ∃ a0, a = a0 +:+ String c "".
Proof.
  induction a as [|x a IH]; [done|]. destruct a as [|y a].
  - intros [= ->]. by exists "".
  - intros Hl. destruct (IH Hl) as [a0 Ha0]. exists (String x a0).
    by rewrite append_cons, <- Ha0.
Qed.

Lemma slash_not_in_0048 : "/"%char ∉ list_ascii_of_string "0048".
Proof. cbn. rewrite !not_elem_of_cons. repeat split; try done. apply not_elem_of_nil. Qed.

(** A path made of two parts free of ["0048"] is free of it. *)
Lemma find_path_append (p file : string) :
  find "0048" p = None → find "0048" file = None →
  find "0048" (path_append p file) = None.
Proof.
  intros Hp Hf. unfold path_append.
  destruct (last_char p) as [c|] eqn:Hl; [|done].
  destruct (Ascii.eqb_spec c "/") as [->|_].
  - destruct (last_char_split p _ Hl) as [p0 ->].
    rewrite append_assoc. apply find_app_sep; [apply slash_not_in_0048| |done].
    by apply find_app_None_l in Hp.
  - by apply find_app_sep; [apply slash_not_in_0048| |].
Qed.

End FindFacts.

(** * The specification, claim by claim *)

Section Claims.

Context `{Constants}.

Local Open Scope dac_scope.

(** Shared step: what [setFeatureValue] does to the world for a
    supported feature of the enum. *)
Lemma setFeatureValue_sends (s : Sys) (feature : AdvancedFeature) (v : Z)
    (path key : string) (dflt : Z) :
  feature ∈ mSupportedAdvancedFeatures (self s) →
  control_file (self s) feature = Some path →
  property_of feature = Some (key, dflt) →
  sends s feature v (kernel_value feature v).
Proof.
  intros Hin Hpath Hkey. exists path, key, dflt.
  eexists _, _. split; [done|]. split; [done|].
  split; [by apply (setFeatureValue_supported _ _ _ path key dflt)|].
  cbn [world with_world with_log store_property store_file io files props].
  split; [by rewrite <- app_assoc|]. split.
  - intros ->. apply lookup_insert_eq.
  - rewrite property_accepts_store_file. intros ->. apply lookup_insert_eq.
Qed.

Lemma supported_of_constructed (c : DacAdvancedControl) (feature : AdvancedFeature) :
  constructed c → feature ∈ mSupportedAdvancedFeatures c →
  feature = AVCVolume ∨ feature = HifiMode.
Proof.
  intros (w0 & s0 & Hrun & <-) Hin.
  destruct (constructor_object w0 s0 Hrun) as (_ & _ & _ & _ & Hl).
  rewrite Hl in Hin. unfold probe in Hin.
  apply elem_of_app in Hin as [Hin|Hin]; case_match;
    try (by apply elem_of_nil in Hin);
    apply list_elem_of_singleton in Hin; auto.
Qed.

Lemma known_feature (feature : AdvancedFeature) (c : DacAdvancedControl) :
  feature = AVCVolume ∨ feature = HifiMode →
  ∃ path key dflt,
    control_file c feature = Some path ∧ property_of feature = Some (key, dflt).
Proof. intros [->| ->]; cbn; eauto. Qed.

(** C1. A value set for a supported feature is the value read back:
    for AVCVolume and every v in [-24, 0], for HifiMode and every v in
    {0, 1, 2}, [setFeatureValue] followed by [getFeatureValue] returns
    exactly v, the property service taking the write. *)
Theorem set_then_get_roundtrip (s : Sys) (feature : AdvancedFeature) (v : Z) :
  feature ∈ mSupportedAdvancedFeatures (self s) →
  (feature = AVCVolume ∧ -24 <= v <= 0) ∨ (feature = HifiMode ∧ 0 <= v <= 2) →
  store_accepts (world s) feature v →
  ∃ s', (setFeatureValue feature v ;; getFeatureValue feature) s
        = Some (Initialized v, s').
Proof.
  intros Hin Hrange (key & dflt & Hkey & Hacc).
  assert (Hv : int32 v) by (unfold int32, INT32_MIN, INT32_MAX; lia).
  destruct (known_feature feature (self s)) as (path & key' & dflt' & Hpath & Hkey').
  { destruct Hrange as [[-> _]|[-> _]]; auto. }
  rewrite Hkey in Hkey'. injection Hkey' as <- <-.
  unfold bind. rewrite (setFeatureValue_supported _ _ _ path key dflt) by done.
  rewrite (getFeatureValue_supported _ _ key dflt) by done.
  rewrite (property_get_imax_stored _ key v dflt); [by eexists | done |].
  cbn [world with_world with_log store_property props].
  rewrite property_accepts_store_file, Hacc. apply lookup_insert_eq.
Qed.

(** C2 (as amended). For every [int32_t] value v other than
    [INT32_MIN], [setFeatureValue] for a supported AVCVolume writes the
    arithmetic negation -v to the kernel control file and the signed
    value v itself to the property store. *)
Theorem avc_kernel_write_is_negated (s : Sys) (v : Z) :
  AVCVolume ∈ mSupportedAdvancedFeatures (self s) →
  int32 v → v ≠ INT32_MIN →
  sends s AVCVolume v (- v).
Proof.
  intros Hin Hv Hmin.
  replace (- v) with (kernel_value AVCVolume v).
  - by apply (setFeatureValue_sends s AVCVolume v (avcPath (self s))
                PROPERTY_HIFI_DAC_AVC_VOLUME AVC_VOLUME_DEFAULT).
  - unfold kernel_value, wrap32, int32, INT32_MIN, INT32_MAX in *.
    rewrite Z.mod_small; lia.
Qed.

(** C3. For a feature that is not in the supported list, whatever the
    property store holds, [getFeatureValue] returns -1 and
    [setFeatureValue] returns false; neither touches the object, a
    kernel file or a property: each only logs an error. *)
Theorem unsupported_feature_is_inert (s : Sys) (feature : AdvancedFeature) (v : Z) :
  feature ∉ mSupportedAdvancedFeatures (self s) →
  (∃ s' msg, getFeatureValue feature s = Some (Initialized (-1), s')
             ∧ self s' = self s ∧ world s' = world s
             ∧ logcat s' = logcat s ++ [(ERROR, msg)])
  ∧ (∃ s' msg, setFeatureValue feature v s = Some (false, s')
               ∧ self s' = self s ∧ world s' = world s
               ∧ logcat s' = logcat s ++ [(ERROR, msg)]).
Proof.
  intros Hin. split; eexists _, _.
  - rewrite getFeatureValue_unsupported by done. done.
  - rewrite setFeatureValue_unsupported by done. done.
Qed.

(** C5. A supported AVCVolume is described by the range
    {min = -24, max = 0, step = 1}, a supported HifiMode by the three
    pairs Normal/0, High Impedance/1, AUX/2 in that order, each through
    one call of the callback; for an unsupported feature the callback
    is not called at all. *)
Theorem supported_feature_values (s : Sys) :
  (AVCVolume ∈ mSupportedAdvancedFeatures (self s) →
   getSupportedAdvancedFeatureValues AVCVolume s
   = Some ([ {| range := Some {| min := -24; max := 0; step := 1 |};
                states := [] |} ], s))
  ∧ (HifiMode ∈ mSupportedAdvancedFeatures (self s) →
     ∃ st, getSupportedAdvancedFeatureValues HifiMode s = Some ([st], s)
           ∧ states st = [ {| name := "Normal"; value := "0" |};
                           {| name := "High Impedance"; value := "1" |};
                           {| name := "AUX"; value := "2" |} ]
           ∧ (Text.strto_value ∘ Text.strtoimax ∘ value) <$> states st
             = [0; 1; 2])
  ∧ (∀ feature, feature ∉ mSupportedAdvancedFeatures (self s) →
     ∃ s', getSupportedAdvancedFeatureValues feature s = Some ([], s')
           ∧ self s' = self s ∧ world s' = world s).
Proof.
  unfold getSupportedAdvancedFeatureValues, bind, this, std_find.
  split; [|split].
  - intros Hin. by rewrite bool_decide_eq_true_2.
  - intros Hin. rewrite bool_decide_eq_true_2 by done. by eexists.
  - intros feature Hin. rewrite bool_decide_eq_false_2 by done. by eexists.
Qed.

(** Every method leaves the members as they are, and returns. *)
Lemma methods_keep_object (t : Sys) (feature : AdvancedFeature) (v : Z) :
  (∃ r t', getSupportedAdvancedFeatures t = Some (r, t') ∧ self t' = self t)
  ∧ (∃ r t', getSupportedAdvancedFeatureValues feature t = Some (r, t')
             ∧ self t' = self t)
  ∧ (∃ r t', getFeatureValue feature t = Some (r, t') ∧ self t' = self t)
  ∧ (∃ r t', setFeatureValue feature v t = Some (r, t') ∧ self t' = self t).
Proof.
  split; [by eexists _, _|]. split; [|split].
  - unfold getSupportedAdvancedFeatureValues, bind, this.
    destruct (std_find _ _); [destruct feature|]; by eexists _, _.
  - unfold getFeatureValue, bind, this.
    destruct (decide (feature ∈ mSupportedAdvancedFeatures (self t))).
    + rewrite feature_loop_found by done. destruct feature; by eexists _, _.
    + rewrite feature_loop_missing by done. by eexists _, _.
  - unfold setFeatureValue, bind, this.
    destruct (decide (feature ∈ mSupportedAdvancedFeatures (self t))).
    + rewrite feature_loop_found by done. destruct feature; by eexists _, _.
    + rewrite feature_loop_missing by done. by eexists _, _.
Qed.

(** C7. After construction a feature is in the supported list exactly
    when its kernel control file existed when the constructor ran; the
    list is a subsequence of AVCVolume, HifiMode, in that order; and no
    method changes it afterwards. *)
Theorem supported_list_invariant (w : World) (s : Sys) :
  constructor (boot w) = Some (tt, s) →
  (∀ feature,
     feature ∈ mSupportedAdvancedFeatures (self s)
     ↔ ∃ path, control_file (self s) feature = Some path
               ∧ fs_exists w path = true)
  ∧ sublist (mSupportedAdvancedFeatures (self s)) [AVCVolume; HifiMode]
  ∧ (∀ (t : Sys) (feature : AdvancedFeature) (v : Z),
       (∃ r t', getSupportedAdvancedFeatures t = Some (r, t') ∧ self t' = self t)
       ∧ (∃ r t', getSupportedAdvancedFeatureValues feature t = Some (r, t')
                  ∧ self t' = self t)
       ∧ (∃ r t', getFeatureValue feature t = Some (r, t') ∧ self t' = self t)
       ∧ (∃ r t', setFeatureValue feature v t = Some (r, t') ∧ self t' = self t)).
Proof.
  intros Hrun.
  destruct (constructor_object w s Hrun) as (_ & _ & _ & _ & Hl).
  rewrite Hl. unfold probe. split; [|split].
  - intros feature. rewrite elem_of_app. split.
    + intros [Hin|Hin]; case_match; try (by apply elem_of_nil in Hin);
        apply list_elem_of_singleton in Hin as ->; eexists; split; done.
    + intros (path & Hpath & Hex).
      destruct feature; cbn in Hpath; [| |done]; injection Hpath as <-;
        rewrite Hex; [left | right]; by apply list_elem_of_singleton.
  - destruct (fs_exists w (avcPath (self s))), (fs_exists w (hifiPath (self s)));
      cbn; repeat constructor.
  - apply methods_keep_object.
Qed.

(** C8 (as amended). For a supported feature whose property is absent,
    or holds a text from whose beginning no integer can be read (no
    decimal digit after the leading white space and an optional sign),
    [getFeatureValue] returns the default of the feature:
    [AVC_VOLUME_DEFAULT] for AVCVolume, [HIFI_MODE_DEFAULT] for
    HifiMode. *)
Theorem unreadable_property_gives_default (s : Sys) (feature : AdvancedFeature)
    (key : string) (dflt : Z) :
  feature ∈ mSupportedAdvancedFeatures (self s) →
  (feature = AVCVolume ∧ key = PROPERTY_HIFI_DAC_AVC_VOLUME
     ∧ dflt = AVC_VOLUME_DEFAULT)
  ∨ (feature = HifiMode ∧ key = PROPERTY_HIFI_DAC_MODE
       ∧ dflt = HIFI_MODE_DEFAULT) →
  unreadable (world s) key →
  ∃ s', getFeatureValue feature s = Some (Initialized dflt, s')
        ∧ world s' = world s.
Proof.
  intros Hin Hf Hbad.
  assert (Hkey : property_of feature = Some (key, dflt)).
  { by destruct Hf as [(-> & -> & ->)|(-> & -> & ->)]. }
  rewrite (getFeatureValue_supported _ _ key dflt) by done.
  destruct Hbad as [Hnone|(text & Htext & Hnn)].
  - rewrite property_get_imax_missing by done. by eexists.
  - rewrite (property_get_imax_not_numeric _ _ text) by done. by eexists.
Qed.

(** C9. The list the constructor builds holds nothing but AVCVolume
    and HifiMode, so a feature found in it is dispatched by one of the
    two [case] branches, and [getFeatureValue] never returns its
    uninitialised local: in front of any world and for any argument it
    returns an initialised number. *)
Theorem getFeatureValue_is_initialized (c : DacAdvancedControl) :
  constructed c →
  (∀ feature, feature ∈ mSupportedAdvancedFeatures c →
              feature = AVCVolume ∨ feature = HifiMode)
  ∧ (∀ feature w l, ∃ n t,
       getFeatureValue feature (facing c w l) = Some (Initialized n, t)
       ∧ int32 n)
  ∧ (∀ feature v w l,
       feature ∈ mSupportedAdvancedFeatures c →
       ∃ sent, sends (facing c w l) feature v sent).
Proof.
  intros Hc. split; [intros feature; by apply (supported_of_constructed c)|].
  split.
  - intros feature w l.
    destruct (decide (feature ∈ mSupportedAdvancedFeatures c)) as [Hin|Hin].
    + assert (Hf : feature = AVCVolume ∨ feature = HifiMode)
        by (by apply (supported_of_constructed c)).
      destruct (known_feature feature c Hf) as (path & key & dflt & _ & Hkey).
      rewrite (getFeatureValue_supported _ _ key dflt) by done.
      eexists _, _. split; [done|]. apply property_get_imax_bounds.
      destruct Hf as [->| ->]; injection Hkey as _ <-;
        [apply AVC_VOLUME_DEFAULT_int32 | apply HIFI_MODE_DEFAULT_int32].
    + rewrite getFeatureValue_unsupported by done.
      eexists _, _. split; [done|]. unfold int32, INT32_MIN, INT32_MAX. lia.
  - intros feature v w l Hin.
    destruct (known_feature feature c) as (path & key & dflt & Hpath & Hkey).
    { by apply (supported_of_constructed c). }
    eexists. by apply (setFeatureValue_sends _ _ _ path key dflt).
Qed.

(** C10. [setFeatureValue] checks no range: for a supported feature
    and any [int32_t] value the control file receives the number
    computed from it (the 32-bit negation for AVCVolume, the value
    itself for HifiMode) and the property store the value itself,
    nothing clamped, and the call returns what it returns for any
    other value. *)
Theorem setFeatureValue_does_not_validate (c : DacAdvancedControl)
    (w : World) (l : list (severity * string)) (feature : AdvancedFeature)
    (v v0 : Z) :
  constructed c →
  feature ∈ mSupportedAdvancedFeatures c →
  int32 v → int32 v0 →
  sends (facing c w l) feature v (kernel_value feature v)
  ∧ Text.strto_value (Text.strtoimax (Text.to_string v)) = v
  ∧ fst <$> setFeatureValue feature v (facing c w l)
    = fst <$> setFeatureValue feature v0 (facing c w l).
Proof.
  intros Hc Hin Hv Hv0.
  destruct (known_feature feature c) as (path & key & dflt & Hpath & Hkey).
  { by apply (supported_of_constructed c). }
  split; [by apply (setFeatureValue_sends _ _ _ path key dflt)|]. split.
  - rewrite StrtoFacts.strtoimax_to_string; [done|].
    unfold int32, INT32_MIN, INT32_MAX, Text.INTMAX_MIN, Text.INTMAX_MAX in *.
    lia.
  - by rewrite !(setFeatureValue_result _ _ _ path key dflt).
Qed.

Lemma discover_without_match (entries : list dir_entry) :
  Text.find "0048" COMMON_ES9218_PATH = None →
  (∀ entry, entry ∈ entries → d_is_directory entry = true →
            Text.find "0048" (d_name entry) = None) →
  discover entries = None.
Proof.
  intros Hparent. induction entries as [|entry rest IH]; intros Hnames; [done|].
  cbn [discover]. destruct (d_is_directory entry) eqn:Hdir; cbn [andb].
  - rewrite FindFacts.find_path_append;
      [|done|apply Hnames; [apply list_elem_of_here | done]].
    rewrite bool_decide_eq_false_2 by apply is_Some_None.
    apply IH. intros e He. apply Hnames. by apply list_elem_of_further.
  - apply IH. intros e He. apply Hnames. by apply list_elem_of_further.
Qed.

Lemma constructor_degraded (w : World) (entries : list dir_entry) :
  dirs w !! COMMON_ES9218_PATH = Some entries →
  discover entries = None →
  constructor (boot w)
  = Some (tt, with_log ERROR
                "DacAdvancedControl: No ES9218 path found, exiting..." (boot w)).
Proof.
  intros Hd Hnone. unfold constructor, bind at 1.
  unfold directory_iterator, bind at 1. unfold the_world. cbn [boot world].
  rewrite Hd. unfold ret at 1. unfold bind at 1.
  rewrite scan_entries_discover, Hnone. reflexivity.
Qed.

(** The degraded mode, once the parent directory has been listed: when
    it lists no subdirectory whose name
    contains "0048", the constructor leaves the base path and the
    supported list empty and the world untouched, and from then on
    [getSupportedAdvancedFeatures] answers the empty list,
    [getSupportedAdvancedFeatureValues] does not answer,
    [getFeatureValue] returns -1 and [setFeatureValue] returns false
    without writing.  (The search runs over the whole path, so the
    parent path itself is taken not to contain "0048".) *)
Theorem construction_without_codec (w : World) (entries : list dir_entry) :
  dirs w !! COMMON_ES9218_PATH = Some entries →
  Text.find "0048" COMMON_ES9218_PATH = None →
  (∀ entry, entry ∈ entries → d_is_directory entry = true →
            Text.find "0048" (d_name entry) = None) →
  ∃ s, constructor (boot w) = Some (tt, s)
       ∧ mDacBasePath (self s) = ""
       ∧ mSupportedAdvancedFeatures (self s) = []
       ∧ world s = w
       ∧ ∀ (t : Sys) (feature : AdvancedFeature) (v : Z),
           self t = self s →
           getSupportedAdvancedFeatures t = Some ([[]], t)
           ∧ (∃ t', getSupportedAdvancedFeatureValues feature t = Some ([], t')
                    ∧ world t' = world t)
           ∧ (∃ t', getFeatureValue feature t = Some (Initialized (-1), t')
                    ∧ world t' = world t)
           ∧ (∃ t', setFeatureValue feature v t = Some (false, t')
                    ∧ world t' = world t).
Proof.
  intros Hd Hparent Hnames. eexists. split.
  { apply (constructor_degraded w entries Hd).
    by apply discover_without_match. }
  do 3 (split; [done|]). cbn [self with_log boot]. intros t feature v Ht.
  assert (Hnot : feature ∉ mSupportedAdvancedFeatures (self t)).
  { rewrite Ht. apply not_elem_of_nil. }
  split; [|split; [|split]].
  - unfold getSupportedAdvancedFeatures, bind, this, ret. by rewrite Ht.
  - unfold getSupportedAdvancedFeatureValues, bind, this, std_find.
    rewrite bool_decide_eq_false_2 by done. by eexists.
  - rewrite getFeatureValue_unsupported by done. by eexists.
  - rewrite setFeatureValue_unsupported by done. by eexists.
Qed.

End Claims.

(** * Beyond the claims: the constructor *)

Section ConstructorCoverage.

Context `{Constants}.

Local Open Scope dac_scope.

Ltac exec :=
  unfold LOG, ret, bind, this, modify_self, the_world, put_world, exists_,
    getAvcVolumeState, getHifiModeState, writeAvcVolumeState,
    writeHifiModeState, property_get_int32, property_set, set;
  cbn.

(** In the model, where [exists] and [is_directory] report no error of
    their own, the constructor returns as soon as the directory can be
    listed. *)
Lemma constructor_returns (w : World) (entries : list dir_entry) :
  dirs w !! COMMON_ES9218_PATH = Some entries →
  ∃ s, constructor (boot w) = Some (tt, s).
Proof.
  intros Hd. unfold constructor, bind at 1. unfold directory_iterator, bind at 1.
  unfold the_world. cbn [boot world]. rewrite Hd.
  unfold ret at 1. unfold bind at 1. rewrite scan_entries_discover.
  destruct (discover entries) as [base|]; [|exec; by eexists].
  unfold bind at 1. unfold this at 1.
  cbn [self with_self set_mDacBasePath mDacBasePath].
  destruct (Text.empty base); [exec; by eexists|]. exec.
  destruct (fs_exists w (base +:+ AVC_VOLUME)); exec;
    match goal with |- context [fs_exists ?w' ?p] => destruct (fs_exists w' p) end;
    exec; by eexists.
Qed.

(** The world the constructor leaves: the volume resynchronised, then
    the mode. *)
Lemma constructor_world (w : World) (s : Sys) :
  constructor (boot w) = Some (tt, s) →
  world s = resynchronise (self s) HifiMode (resynchronise (self s) AVCVolume w).
Proof.
  unfold constructor, bind at 1. unfold directory_iterator, bind at 1.
  unfold the_world. cbn [boot world].
  destruct (dirs w !! COMMON_ES9218_PATH) as [entries|]; [|done].
  unfold ret at 1. unfold bind at 1. rewrite scan_entries_discover.
  destruct (discover entries) as [base|].
  2: { exec. intros Hrun. injection Hrun as <-. done. }
  unfold bind at 1. unfold this at 1.
  cbn [self with_self set_mDacBasePath mDacBasePath].
  destruct (Text.empty base) eqn:Hempty.
  { destruct base; [|done]. exec. intros Hrun. injection Hrun as <-. done. }
  unfold resynchronise. exec.
  destruct (fs_exists w (base +:+ AVC_VOLUME)) eqn:Havc; exec;
    match goal with |- context [fs_exists ?w' ?p] =>
      destruct (fs_exists w' p) eqn:Hhifi end;
    exec; intros Hrun; injection Hrun as <-; cbn;
    rewrite ?Havc; cbn; rewrite ?Hhifi; done.
Qed.


Lemma property_get_imax_ext (w w' : World) (key : string) (lo hi dflt : Z) :
  props w !! key = props w' !! key →
  property_get_imax w key lo hi dflt = property_get_imax w' key lo hi dflt.
Proof. unfold property_get_imax, property_get. by intros ->. Qed.

Lemma props_store_property_ne (key text key' : string) (w : World) :
  key ≠ key' → props (store_property key text w) !! key' = props w !! key'.
Proof.
  intros Hne. cbn [props store_property].
  destruct (property_accepts w key text); [by rewrite lookup_insert_ne | done].
Qed.

Lemma files_store_file_ne (path text p : string) (w : World) :
  path ≠ p → files (store_file path text w) !! p = files w !! p.
Proof.
  intros Hne. cbn [files store_file].
  destruct (writable w path); [by rewrite lookup_insert_ne | done].
Qed.

(** Resynchronising a feature creates no file. *)
Lemma fs_exists_resynchronise (c : DacAdvancedControl) (feature : AdvancedFeature)
    (w : World) (p : string) :
  fs_exists (resynchronise c feature w) p = fs_exists w p.
Proof.
  unfold resynchronise.
  destruct (control_file c feature) as [path|]; [|done].
  destruct (property_of feature) as [[key dflt]|]; [|done].
  destruct (fs_exists w path) eqn:Hpath; [|done].
  by rewrite fs_exists_store_property, fs_exists_store_file.
Qed.

Lemma files_resynchronise_ne (c : DacAdvancedControl) (feature : AdvancedFeature)
    (w : World) (p : string) :
  control_file c feature ≠ Some p →
  files (resynchronise c feature w) !! p = files w !! p.
Proof.
  unfold resynchronise. intros Hne.
  destruct (control_file c feature) as [path|]; [|done].
  destruct (property_of feature) as [[key dflt]|]; [|done].
  destruct (fs_exists w path); [|done].
  cbn [files store_property]. apply files_store_file_ne. congruence.
Qed.

Lemma props_resynchronise_ne (c : DacAdvancedControl) (feature : AdvancedFeature)
    (w : World) (k : string) :
  fst <$> property_of feature ≠ Some k →
  props (resynchronise c feature w) !! k = props w !! k.
Proof.
  unfold resynchronise. intros Hne.
  destruct (control_file c feature) as [path|]; [|done].
  destruct (property_of feature) as [[key dflt]|]; [|done].
  destruct (fs_exists w path); [|done].
  rewrite props_store_property_ne; [done|]. cbn in Hne. congruence.
Qed.

Lemma find_Some_nonempty (p : string) :
  is_Some (Text.find "0048" p) → Text.empty p = false.
Proof. destruct p; [|done]. cbn. by intros [? ?]. Qed.

Lemma discover_first_match (skipped : list dir_entry) (entry : dir_entry)
    (rest : list dir_entry) :
  (∀ e, e ∈ skipped →
        d_is_directory e = false
        ∨ Text.find "0048" (path_append COMMON_ES9218_PATH (d_name e)) = None) →
  d_is_directory entry = true →
  is_Some (Text.find "0048" (path_append COMMON_ES9218_PATH (d_name entry))) →
  discover (skipped ++ entry :: rest)
  = Some (path_append COMMON_ES9218_PATH (d_name entry)).
Proof.
  intros Hskip Hdir Hfound. induction skipped as [|e skipped IH].
  - cbn [app discover]. rewrite Hdir. cbn [andb].
    by rewrite bool_decide_eq_true_2.
  - cbn [app discover].
    destruct (Hskip e (list_elem_of_here _ _)) as [->| ->]; cbn [andb].
    + apply IH. intros e' He'. apply Hskip. by apply list_elem_of_further.
    + rewrite bool_decide_eq_false_2 by apply is_Some_None.
      rewrite andb_false_r.
      apply IH. intros e' He'. apply Hskip. by apply list_elem_of_further.
Qed.

(** X2. The base path is the path of the first entry of the listing
    that is a directory and has "0048" in its path: entries before it
    that are no directories or do not match are passed over, entries
    after it are not looked at; the two control paths are the base path
    with the two suffixes. *)
Theorem constructor_takes_first_match (w : World) (skipped : list dir_entry)
    (entry : dir_entry) (rest : list dir_entry) :
  dirs w !! COMMON_ES9218_PATH = Some (skipped ++ entry :: rest) →
  (∀ e, e ∈ skipped →
        d_is_directory e = false
        ∨ Text.find "0048" (path_append COMMON_ES9218_PATH (d_name e)) = None) →
  d_is_directory entry = true →
  is_Some (Text.find "0048" (path_append COMMON_ES9218_PATH (d_name entry))) →
  ∃ s, constructor (boot w) = Some (tt, s)
       ∧ mDacBasePath (self s) = path_append COMMON_ES9218_PATH (d_name entry)
       ∧ avcPath (self s) = mDacBasePath (self s) +:+ AVC_VOLUME
       ∧ hifiPath (self s) = mDacBasePath (self s) +:+ HIFI_MODE.
Proof.
  intros Hd Hskip Hdir Hfound.
  destruct (constructor_returns w _ Hd) as [s Hs]. exists s. split; [done|].
  destruct (constructor_object w s Hs) as (entries & Hd' & Hbase & Hpaths & _).
  rewrite Hd in Hd'. injection Hd' as <-.
  rewrite (discover_first_match skipped entry rest) in Hbase by done.
  cbn [default from_option id] in Hbase. split; [done|].
  rewrite Hbase in Hpaths |- *.
  by rewrite (find_Some_nonempty _ Hfound) in Hpaths.
Qed.


Lemma dirs_resynchronise (c : DacAdvancedControl) (feature : AdvancedFeature)
    (w : World) :
  dirs (resynchronise c feature w) = dirs w.
Proof. unfold resynchronise. by repeat case_match. Qed.

Lemma constructor_keeps_existence (w : World) (s : Sys) :
  constructor (boot w) = Some (tt, s) →
  dirs (world s) = dirs w ∧ ∀ p, fs_exists (world s) p = fs_exists w p.
Proof.
  intros Hrun. rewrite (constructor_world w s Hrun). split.
  - by rewrite !dirs_resynchronise.
  - intros p. by rewrite !fs_exists_resynchronise.
Qed.

(** X4. The constructor creates no file and lists no directory anew:
    what exists afterwards existed before, and every file other than
    the two control files and every property other than the two of the
    features is as it was. *)
Theorem constructor_frame (w : World) (s : Sys) :
  constructor (boot w) = Some (tt, s) →
  dirs (world s) = dirs w
  ∧ (∀ p, fs_exists (world s) p = fs_exists w p)
  ∧ (∀ p, p ≠ avcPath (self s) → p ≠ hifiPath (self s) →
          files (world s) !! p = files w !! p)
  ∧ (∀ k, k ≠ PROPERTY_HIFI_DAC_AVC_VOLUME → k ≠ PROPERTY_HIFI_DAC_MODE →
          props (world s) !! k = props w !! k).
Proof.
  intros Hrun. destruct (constructor_keeps_existence w s Hrun) as (Hdirs & Hex).
  do 2 (split; [done|]). rewrite (constructor_world w s Hrun). split.
  - intros p Havc Hhifi.
    rewrite !files_resynchronise_ne; [done|cbn; congruence..].
  - intros k Havc Hhifi.
    rewrite !props_resynchronise_ne; [done|cbn; congruence..].
Qed.




End ConstructorCoverage.

(** * Beyond the claims: the accessors *)

Section AccessorCoverage.

Context `{Constants}.

Local Open Scope dac_scope.

(** What [strtoimax] makes of the decimal text of any number but 0. *)
Lemma strtoimax_to_string_nonzero (v : Z) :
  v ≠ 0 →
  ∃ d : nat,
    Text.strtoimax (Text.to_string v) = Text.conclude (v <? 0) (Z.abs v, S d).
Proof.
  intros Hne. unfold Text.to_string.
  destruct (Z.ltb_spec v 0) as [Hneg|Hpos].
  - destruct (StrtoFacts.digits_head (- v)) as (m & r & Hm & Hr); [lia|].
    destruct (StrtoFacts.accumulate_digits (- v)) as [d Hd]; [lia|].
    exists d. rewrite Hr in Hd |- *.
    rewrite StrtoFacts.strtoimax_negative, Hd by done.
    by rewrite Z.abs_neq by lia.
  - destruct (StrtoFacts.digits_head v) as (m & r & Hm & Hr); [lia|].
    destruct (StrtoFacts.accumulate_digits v) as [d Hd]; [lia|].
    exists d. rewrite Hr in Hd |- *.
    rewrite StrtoFacts.strtoimax_unsigned, Hd by done.
    by rewrite Z.abs_eq by lia.
Qed.

Lemma property_get_imax_out_of_range (w : World) (key : string) (n dflt : Z) :
  ¬ int32 n →
  props w !! key = Some (Text.to_string n) →
  property_get_imax w key INT32_MIN INT32_MAX dflt = dflt.
Proof.
  unfold int32. intros Hout Hw. unfold property_get_imax, property_get.
  rewrite Hw.
  destruct (Nat.ltb_spec 0 (String.length (Text.to_string n))) as [_|Hl].
  2: { pose proof (StrtoFacts.to_string_nonempty n). lia. }
  destruct (strtoimax_to_string_nonzero n) as [d ->].
  { intros ->. apply Hout. unfold INT32_MIN, INT32_MAX. lia. }
  unfold Text.conclude. cbn [fst snd].
  assert (Hv : (if n <? 0 then - Z.abs n else Z.abs n) = n).
  { destruct (Z.ltb_spec n 0); lia. }
  rewrite Hv.
  unfold INT32_MIN, INT32_MAX, Text.INTMAX_MIN, Text.INTMAX_MAX in *.
  destruct (Z.ltb_spec n (- 2 ^ 63)); [done|].
  destruct (Z.ltb_spec (2 ^ 63 - 1) n); [done|].
  cbn [Text.strto_value Text.strto_erange Text.strto_end_is_buf].
  rewrite andb_false_r.
  destruct (Z.ltb_spec n (- 2 ^ 31)); [done|].
  destruct (Z.ltb_spec (2 ^ 31 - 1) n); [done|]. lia.
Qed.


(** X7. Setting one feature leaves the other alone: what
    [getFeatureValue] reports for any other feature, and the control
    file of any other feature, are as before the call.  (The two
    properties and the two control paths are different.) *)
Theorem setFeatureValue_leaves_other_feature (c : DacAdvancedControl)
    (w : World) (l : list (severity * string))
    (feature other : AdvancedFeature) (v : Z) :
  constructed c →
  feature ∈ mSupportedAdvancedFeatures c →
  other ≠ feature →
  PROPERTY_HIFI_DAC_AVC_VOLUME ≠ PROPERTY_HIFI_DAC_MODE →
  avcPath c ≠ hifiPath c →
  ∃ b s1,
    setFeatureValue feature v (facing c w l) = Some (b, s1)
    ∧ fst <$> getFeatureValue other s1
      = fst <$> getFeatureValue other (facing c w l)
    ∧ (∀ p, control_file c other = Some p →
            files (world s1) !! p = files w !! p).
Proof.
  intros Hc Hin Hother Hkeys Hpaths.
  assert (Hf : feature = AVCVolume ∨ feature = HifiMode)
    by (by apply (supported_of_constructed c)).
  destruct (known_feature feature c Hf) as (path & key & dflt & Hpath & Hkey).
  eexists _, _.
  split; [by apply (setFeatureValue_supported _ _ _ path key dflt)|]. split.
  - destruct (decide (other ∈ mSupportedAdvancedFeatures c)) as [Ho|Ho].
    + assert (Hof : other = AVCVolume ∨ other = HifiMode)
        by (by apply (supported_of_constructed c)).
      destruct (known_feature other c Hof) as (path' & key' & dflt' & _ & Hkey').
      rewrite !(getFeatureValue_supported _ _ key' dflt') by done.
      cbn [fmap option_fmap option_map fst]. do 2 f_equal.
      apply property_get_imax_ext.
      cbn [world facing with_world with_log].
      rewrite props_store_property_ne; [done|].
      destruct Hf as [->| ->], Hof as [->| ->]; cbn in Hkey, Hkey';
        congruence.
    + by rewrite !getFeatureValue_unsupported.
  - intros p Hp. cbn [world facing with_world with_log files store_property].
    apply files_store_file_ne.
    destruct Hf as [->| ->]; destruct other; cbn in Hpath, Hp; congruence.
Qed.

(** X8. The three reading methods write nothing: whatever the object,
    the world and the argument, each returns and leaves every file,
    every property and the record of writes as they were. *)
Theorem reading_methods_do_not_write (s : Sys) (feature : AdvancedFeature) :
  (∃ r s', getSupportedAdvancedFeatures s = Some (r, s') ∧ world s' = world s)
  ∧ (∃ r s', getSupportedAdvancedFeatureValues feature s = Some (r, s')
             ∧ world s' = world s)
  ∧ (∃ r s', getFeatureValue feature s = Some (r, s') ∧ world s' = world s).
Proof.
  split; [by eexists _, _|]. split.
  - unfold getSupportedAdvancedFeatureValues, bind, this.
    destruct (std_find _ _); [destruct feature|]; by eexists _, _.
  - unfold getFeatureValue, bind, this.
    destruct (decide (feature ∈ mSupportedAdvancedFeatures (self s))).
    + rewrite feature_loop_found by done. destruct feature; by eexists _, _.
    + rewrite feature_loop_missing by done. by eexists _, _.
Qed.

(** X9. A property that holds the decimal text of a number outside
    [int32_t] is not truncated: [getFeatureValue] returns the default of
    the feature. *)
Theorem oversized_property_gives_default (s : Sys) (feature : AdvancedFeature)
    (key : string) (dflt n : Z) :
  feature ∈ mSupportedAdvancedFeatures (self s) →
  property_of feature = Some (key, dflt) →
  ¬ int32 n →
  props (world s) !! key = Some (Text.to_string n) →
  ∃ s', getFeatureValue feature s = Some (Initialized dflt, s').
Proof.
  intros Hin Hkey Hout Hw.
  rewrite (getFeatureValue_supported _ _ key dflt) by done.
  rewrite (property_get_imax_out_of_range _ _ n) by done. by eexists.
Qed.

(** X10. On a constructed object [getSupportedAdvancedFeatureValues]
    answers, with one call of the callback, exactly for the features
    that [getSupportedAdvancedFeatures] lists. *)
Theorem listed_features_are_described (c : DacAdvancedControl) (w : World)
    (l : list (severity * string)) :
  constructed c →
  ∃ listed,
    getSupportedAdvancedFeatures (facing c w l) = Some ([listed], facing c w l)
    ∧ ∀ feature,
        feature ∈ listed
        ↔ ∃ st t, getSupportedAdvancedFeatureValues feature (facing c w l)
                  = Some ([st], t).
Proof.
  intros Hc. exists (mSupportedAdvancedFeatures c). split; [done|].
  intros feature.
  unfold getSupportedAdvancedFeatureValues, bind, this, std_find.
  cbn [self facing]. split.
  - intros Hin. rewrite bool_decide_eq_true_2 by done.
    destruct (supported_of_constructed c feature Hc Hin) as [->| ->];
      by eexists _, _.
  - intros (st & t & Hrun).
    destruct (decide (feature ∈ mSupportedAdvancedFeatures c)) as [|Hout]; [done|].
    by rewrite bool_decide_eq_false_2 in Hrun.
Qed.

End AccessorCoverage.

(** * Beyond the claims: restarting the service *)

Section RestartCoverage.

Context `{Constants}.

Local Open Scope dac_scope.

Lemma property_of_default_int32 (feature : AdvancedFeature) (key : string)
    (dflt : Z) :
  property_of feature = Some (key, dflt) → int32 dflt.
Proof.
  destruct feature; cbn; [| |done]; intros Hk; injection Hk as _ <-;
    [apply AVC_VOLUME_DEFAULT_int32 | apply HIFI_MODE_DEFAULT_int32].
Qed.

Lemma agrees_refl (w : World) : agrees w w.
Proof. by repeat split. Qed.

(** Resynchronising a feature changes no answer the constructor relies
    on. *)
Lemma agrees_resynchronise (c : DacAdvancedControl) (feature : AdvancedFeature)
    (w u : World) :
  PROPERTY_HIFI_DAC_AVC_VOLUME ≠ PROPERTY_HIFI_DAC_MODE →
  agrees w u → agrees w (resynchronise c feature u).
Proof.
  intros Hkeys (Hex & Hwr & Hset & Hc).
  split; [|split; [|split]].
  - intros p. by rewrite fs_exists_resynchronise.
  - rewrite <- Hwr. unfold resynchronise. by repeat case_match.
  - rewrite <- Hset. unfold resynchronise. by repeat case_match.
  - intros g. rewrite <- Hc. unfold cached.
    destruct (property_of g) as [[kg dg]|] eqn:Hg; [|done]. f_equal.
    unfold resynchronise.
    destruct (control_file c feature) as [path|]; [|done].
    destruct (property_of feature) as [[key dflt]|] eqn:Hf; [|done].
    destruct (fs_exists u path); [|done].
    destruct (decide (key = kg)) as [<-|Hne].
    + assert (dflt = dg) as <-.
      { destruct feature, g; cbn in Hf, Hg; congruence. }
      pose proof (property_of_default_int32 _ _ _ Hf) as Hd.
      pose proof (property_get_imax_bounds u key INT32_MIN INT32_MAX dflt Hd) as Hn.
      destruct (property_accepts u key
                  (Text.to_string (property_get_imax u key INT32_MIN INT32_MAX dflt)))
        eqn:Hacc.
      * apply property_get_imax_stored; [done|]. cbn [props store_property].
        rewrite property_accepts_store_file, Hacc. apply lookup_insert_eq.
      * apply property_get_imax_ext. cbn [props store_property].
        by rewrite property_accepts_store_file, Hacc.
    + apply property_get_imax_ext. by rewrite props_store_property_ne.
Qed.

Lemma files_resynchronise (c : DacAdvancedControl) (feature : AdvancedFeature)
    (w u : World) (path key : string) (dflt : Z) :
  agrees w u →
  control_file c feature = Some path →
  property_of feature = Some (key, dflt) →
  files (resynchronise c feature u)
  = if fs_exists w path && writable w path
    then <[path := Text.to_string
                     (kernel_value feature
                        (property_get_imax w key INT32_MIN INT32_MAX dflt))]>
           (files u)
    else files u.
Proof.
  intros (Hex & Hwr & Hset & Hc) Hpath Hkey. unfold resynchronise.
  rewrite Hpath, Hkey, Hex.
  specialize (Hc feature). unfold cached in Hc. rewrite Hkey in Hc.
  injection Hc as ->.
  destruct (fs_exists w path); [|done].
  cbn [files store_property store_file andb]. by rewrite Hwr.
Qed.

Lemma props_resynchronise (c : DacAdvancedControl) (feature : AdvancedFeature)
    (w u : World) (path key : string) (dflt : Z) :
  agrees w u →
  control_file c feature = Some path →
  property_of feature = Some (key, dflt) →
  props (resynchronise c feature u)
  = if fs_exists w path && settable w key
    then <[key := Text.to_string
                    (property_get_imax w key INT32_MIN INT32_MAX dflt)]>
           (props u)
    else props u.
Proof.
  intros (Hex & Hwr & Hset & Hc) Hpath Hkey. unfold resynchronise.
  rewrite Hpath, Hkey, Hex.
  specialize (Hc feature). unfold cached in Hc. rewrite Hkey in Hc.
  injection Hc as ->.
  destruct (fs_exists w path); [|done].
  cbn [props store_property andb]. rewrite property_accepts_store_file.
  rewrite property_accepts_int32, Hset; [done|].
  apply property_get_imax_bounds. by apply (property_of_default_int32 feature key).
Qed.

(** Two conditional inserts done twice are the two inserts done once. *)
Lemma insert_twice_twice (m : gmap string string) (g1 g2 : bool)
    (k1 k2 x1 x2 : string) :
  let step (m : gmap string string) :=
    (if g2 then <[k2 := x2]> (if g1 then <[k1 := x1]> m else m)
     else (if g1 then <[k1 := x1]> m else m)) in
  step (step m) = step m.
Proof.
  cbv zeta. apply map_eq. intros i.
  destruct g1, g2; rewrite ?lookup_insert; repeat case_decide; done.
Qed.

(** X12. Starting the service again changes nothing: on the world a
    construction leaves, a second construction builds the same object
    and leaves every file and every property as it found them.  (The
    two properties are different.) *)
Theorem construction_is_idempotent (w : World) (s : Sys) :
  constructor (boot w) = Some (tt, s) →
  PROPERTY_HIFI_DAC_AVC_VOLUME ≠ PROPERTY_HIFI_DAC_MODE →
  ∃ s', constructor (boot (world s)) = Some (tt, s')
        ∧ self s' = self s
        ∧ files (world s') = files (world s)
        ∧ props (world s') = props (world s).
Proof.
  intros Hrun Hkeys.
  destruct (constructor_object w s Hrun) as (entries & Hd & Hbase & Hpaths & Hl).
  destruct (constructor_keeps_existence w s Hrun) as (Hdirs & Hex).
  assert (Hd' : dirs (world s) !! COMMON_ES9218_PATH = Some entries)
    by (by rewrite Hdirs).
  destruct (constructor_returns (world s) entries Hd') as [s' Hrun'].
  exists s'. split; [done|].
  destruct (constructor_object (world s) s' Hrun')
    as (entries' & Hd'' & Hbase' & Hpaths' & Hl').
  rewrite Hd' in Hd''. injection Hd'' as <-.
  assert (Hself : self s' = self s).
  { rewrite <- Hbase in Hbase'. rewrite Hbase' in Hpaths'.
    assert (Hp : avcPath (self s') = avcPath (self s)
                 ∧ hifiPath (self s') = hifiPath (self s)).
    { destruct (Text.empty (mDacBasePath (self s))).
      - destruct Hpaths as (Ha & Hh & _), Hpaths' as (Ha' & Hh' & _).
        split; congruence.
      - destruct Hpaths as (Ha & Hh), Hpaths' as (Ha' & Hh').
        split; congruence. }
    destruct Hp as (Ha & Hh).
    assert (Hlist : mSupportedAdvancedFeatures (self s')
                    = mSupportedAdvancedFeatures (self s)).
    { rewrite Hl, Hl'. unfold probe. by rewrite Ha, Hh, !Hex. }
    destruct (self s'), (self s); cbn in *; congruence. }
  split; [done|].
  rewrite (constructor_world (world s) s' Hrun'), Hself.
  rewrite (constructor_world w s Hrun).
  set (c := self s).
  set (u1 := resynchronise c AVCVolume w).
  set (u2 := resynchronise c HifiMode u1).
  set (u3 := resynchronise c AVCVolume u2).
  assert (A1 : agrees w u1) by (apply agrees_resynchronise; [done|apply agrees_refl]).
  assert (A2 : agrees w u2) by (by apply agrees_resynchronise).
  assert (A3 : agrees w u3) by (by apply agrees_resynchronise).
  split.
  - rewrite (files_resynchronise c HifiMode w u3 (hifiPath c)
               PROPERTY_HIFI_DAC_MODE HIFI_MODE_DEFAULT A3) by done.
    unfold u3.
    rewrite (files_resynchronise c AVCVolume w u2 (avcPath c)
               PROPERTY_HIFI_DAC_AVC_VOLUME AVC_VOLUME_DEFAULT A2) by done.
    unfold u2.
    rewrite (files_resynchronise c HifiMode w u1 (hifiPath c)
               PROPERTY_HIFI_DAC_MODE HIFI_MODE_DEFAULT A1) by done.
    unfold u1.
    rewrite (files_resynchronise c AVCVolume w w (avcPath c)
               PROPERTY_HIFI_DAC_AVC_VOLUME AVC_VOLUME_DEFAULT (agrees_refl w))
      by done.
    apply (insert_twice_twice (files w)).
  - rewrite (props_resynchronise c HifiMode w u3 (hifiPath c)
               PROPERTY_HIFI_DAC_MODE HIFI_MODE_DEFAULT A3) by done.
    unfold u3.
    rewrite (props_resynchronise c AVCVolume w u2 (avcPath c)
               PROPERTY_HIFI_DAC_AVC_VOLUME AVC_VOLUME_DEFAULT A2) by done.
    unfold u2.
    rewrite (props_resynchronise c HifiMode w u1 (hifiPath c)
               PROPERTY_HIFI_DAC_MODE HIFI_MODE_DEFAULT A1) by done.
    unfold u1.
    rewrite (props_resynchronise c AVCVolume w w (avcPath c)
               PROPERTY_HIFI_DAC_AVC_VOLUME AVC_VOLUME_DEFAULT (agrees_refl w))
      by done.
    apply (insert_twice_twice (props w)).
Qed.

(** X11. The control file plays no part in the result of
    [setFeatureValue]: whatever the files are and whether or not the
    control file can be opened, the returned boolean and the property
    store after the call are the same; a file that cannot be opened is
    left as it is. *)
Theorem setFeatureValue_ignores_the_file (c : DacAdvancedControl)
    (w w' : World) (l l' : list (severity * string))
    (feature : AdvancedFeature) (v : Z) :
  constructed c →
  feature ∈ mSupportedAdvancedFeatures c →
  props w = props w' → settable w = settable w' →
  ∃ path b s1 s1',
    control_file c feature = Some path
    ∧ setFeatureValue feature v (facing c w l) = Some (b, s1)
    ∧ setFeatureValue feature v (facing c w' l') = Some (b, s1')
    ∧ props (world s1) = props (world s1')
    ∧ (writable w path = false → files (world s1) = files w).
Proof.
  intros Hc Hin Hprops Hset.
  destruct (known_feature feature c) as (path & key & dflt & Hpath & Hkey).
  { by apply (supported_of_constructed c). }
  exists path. eexists _, _, _. split; [done|].
  split; [by apply (setFeatureValue_supported _ _ _ path key dflt)|].
  rewrite (setFeatureValue_supported _ _ _ path key dflt) by done.
  cbn [world facing with_world with_log props files store_property store_file].
  unfold property_accepts. cbn [settable store_file].
  rewrite Hset, Hprops. split; [done|]. split; [done|].
  by intros ->.
Qed.

End RestartCoverage.

(** * The claims on the example device *)

#[local] Existing Instance Device.constants.

Local Open Scope dac_scope.

Lemma ready_constructed :
  constructor (boot Device.sysfs) = Some (tt, Device.ready).
Proof. vm_compute. reflexivity. Qed.

Lemma volume_only_constructed :
  constructor (boot Device.sysfs_avc_only) = Some (tt, Device.volume_only).
Proof. vm_compute. reflexivity. Qed.

Lemma ready_supports (feature : AdvancedFeature) :
  feature = AVCVolume ∨ feature = HifiMode →
  feature ∈ mSupportedAdvancedFeatures (self Device.ready).
Proof.
  intros [->| ->].
  - apply list_elem_of_here.
  - apply list_elem_of_further, list_elem_of_here.
Defined.

Lemma ready_is_constructed : constructed (self Device.ready).
Proof. exists Device.sysfs, Device.ready. split; [apply ready_constructed | done]. Defined.

(** C4, on the device: the property service takes the value -10 for
    AVCVolume (the store holds "-10" afterwards) and [setFeatureValue]
    returns false; a service that turns the write down leaves the store
    as it was and makes [setFeatureValue] return true. *)
Theorem setFeatureValue_result_is_inverted :
  (∃ s', setFeatureValue AVCVolume (-10) Device.ready = Some (false, s')
         ∧ props (world s') !! PROPERTY_HIFI_DAC_AVC_VOLUME = Some "-10")
  ∧ (∃ s', setFeatureValue AVCVolume (-10)
             (with_world (Device.refusing (world Device.ready)) Device.ready)
           = Some (true, s')
           ∧ props (world s') !! PROPERTY_HIFI_DAC_AVC_VOLUME = Some "-14").
Proof.
  split; eexists; (split; [vm_compute; reflexivity | vm_compute; reflexivity]).
Qed.

(** C2, as stated, fails at [INT32_MIN]: the control file receives
    [INT32_MIN] itself, "-2147483648", which is not the negation
    2147483648. *)
Lemma avc_negation_fails_at_int32_min :
  AVCVolume ∈ mSupportedAdvancedFeatures (self Device.ready)
  ∧ int32 INT32_MIN
  ∧ sends Device.ready AVCVolume INT32_MIN INT32_MIN
  ∧ ¬ sends Device.ready AVCVolume INT32_MIN (- INT32_MIN).
Proof.
  split; [apply ready_supports; by left|]. split; [by vm_compute|].
  split.
  { apply (setFeatureValue_sends Device.ready AVCVolume INT32_MIN
             (avcPath (self Device.ready))
             PROPERTY_HIFI_DAC_AVC_VOLUME AVC_VOLUME_DEFAULT);
      [apply ready_supports; by left | done | done]. }
  intros (path & key & dflt & b & s' & Hpath & Hkey & Hrun & Hio & _).
  rewrite (setFeatureValue_supported _ _ _ path key dflt) in Hrun;
    [|apply ready_supports; by left|done..].
  injection Hrun as _ <-.
  cbn [world with_world with_log store_property store_file io] in Hio.
  rewrite <- app_assoc in Hio. apply app_inv_head in Hio.
  remember (Text.to_string (wrap32 (-1 * INT32_MIN))) as sent eqn:Hsent.
  remember (Text.to_string (- INT32_MIN)) as negated eqn:Hnegated.
  cbn [app] in Hio. assert (Htext : sent = negated) by congruence.
  vm_compute in Hsent, Hnegated. congruence.
Qed.

(** C6, where it fails: on a kernel without the driver the parent
    directory cannot be opened.  No subdirectory matches, and yet the
    constructor does not return: the exception of the directory
    iterator ends it, where the claim has an object with an empty base
    path and an empty list. *)
Theorem constructor_aborts_without_directory :
  dirs Device.no_driver !! COMMON_ES9218_PATH = None
  ∧ constructor (boot Device.no_driver) = None.
Proof.
  assert (Hd : dirs Device.no_driver !! COMMON_ES9218_PATH = None)
    by (vm_compute; reflexivity).
  split; [exact Hd | exact (constructor_unlisted Device.no_driver Hd)].
Qed.

(** A text that continues after a number is the decimal text of no
    number. *)
Lemma no_number_prints_12abc (n : Z) : Text.to_string n ≠ "12abc".
Proof.
  intros Heq. destruct (Z.eq_dec n 0) as [->|Hne].
  { vm_compute in Heq. discriminate Heq. }
  destruct (strtoimax_to_string_nonzero n Hne) as [d Hd].
  assert (Hread : Text.strtoimax "12abc"
                  = {| Text.strto_value := 12; Text.strto_erange := false;
                       Text.strto_end_is_buf := false |})
    by (vm_compute; reflexivity).
  rewrite Heq, Hread in Hd. unfold Text.conclude in Hd. cbn [fst snd] in Hd.
  destruct (_ <? Text.INTMAX_MIN); [discriminate Hd|].
  destruct (Text.INTMAX_MAX <? _); [discriminate Hd|].
  injection Hd as Hv.
  assert (n = 12) as -> by (destruct (Z.ltb_spec n 0); lia).
  vm_compute in Heq. discriminate Heq.
Qed.

(** C8, as stated, fails on a text that begins with a number: "12abc"
    is no integer, and with it in the property of the volume
    [getFeatureValue] returns 12, not the default -14. *)
Lemma numeric_prefix_is_read_not_defaulted :
  AVCVolume ∈ mSupportedAdvancedFeatures (self Device.ready)
  ∧ props (Device.suffixed (world Device.ready)) !! PROPERTY_HIFI_DAC_AVC_VOLUME
    = Some "12abc"
  ∧ (∀ n, Text.to_string n ≠ "12abc")
  ∧ (∃ s', getFeatureValue AVCVolume
             (with_world (Device.suffixed (world Device.ready)) Device.ready)
           = Some (Initialized 12, s'))
  ∧ ¬ (∃ s', getFeatureValue AVCVolume
               (with_world (Device.suffixed (world Device.ready)) Device.ready)
             = Some (Initialized AVC_VOLUME_DEFAULT, s')).
Proof.
  assert (Hrun : ∃ s', getFeatureValue AVCVolume
                         (with_world (Device.suffixed (world Device.ready))
                            Device.ready)
                       = Some (Initialized 12, s'))
    by (eexists; vm_compute; reflexivity).
  split; [apply ready_supports; by left|].
  split; [vm_compute; reflexivity|].
  split; [apply no_number_prints_12abc|].
  split; [exact Hrun|].
  destruct Hrun as [s Hs]. intros [s' Hs']. rewrite Hs in Hs'.
  injection Hs' as Hv _. vm_compute in Hv. discriminate Hv.
Qed.

Lemma set_then_get_roundtrip_witness :
  AVCVolume ∈ mSupportedAdvancedFeatures (self Device.ready)
  ∧ store_accepts (world Device.ready) AVCVolume (-10)
  ∧ ∃ s', (setFeatureValue AVCVolume (-10) ;; getFeatureValue AVCVolume) Device.ready
          = Some (Initialized (-10), s').
Proof.
  assert (Hin : AVCVolume ∈ mSupportedAdvancedFeatures (self Device.ready))
    by (apply ready_supports; by left).
  assert (Hacc : store_accepts (world Device.ready) AVCVolume (-10)).
  { eexists _, _. split; [reflexivity | vm_compute; reflexivity]. }
  split; [exact Hin|]. split; [exact Hacc|].
  apply (set_then_get_roundtrip Device.ready AVCVolume (-10) Hin); [|exact Hacc].
  left. split; [reflexivity | lia].
Defined.

Lemma avc_kernel_write_is_negated_witness :
  AVCVolume ∈ mSupportedAdvancedFeatures (self Device.ready)
  ∧ int32 (-10) ∧ -10 ≠ INT32_MIN
  ∧ sends Device.ready AVCVolume (-10) 10.
Proof.
  assert (Hin : AVCVolume ∈ mSupportedAdvancedFeatures (self Device.ready))
    by (apply ready_supports; by left).
  assert (Hv : int32 (-10)) by (unfold int32, INT32_MIN, INT32_MAX; lia).
  assert (Hne : -10 ≠ INT32_MIN) by (unfold INT32_MIN; lia).
  do 3 (split; [assumption|]).
  exact (avc_kernel_write_is_negated Device.ready (-10) Hin Hv Hne).
Defined.

Lemma unsupported_feature_is_inert_witness :
  (HifiMode ∉ mSupportedAdvancedFeatures (self Device.volume_only))
  ∧ (∃ s' msg,
       getFeatureValue HifiMode (Device.volume_only)
       = Some (Initialized (-1), s')
       ∧ self s' = self (Device.volume_only)
       ∧ world s' = world (Device.volume_only)
       ∧ logcat s' = logcat (Device.volume_only) ++ [(ERROR, msg)])
  ∧ (∃ s' msg,
       setFeatureValue HifiMode 2 (Device.volume_only)
       = Some (false, s')
       ∧ self s' = self (Device.volume_only)
       ∧ world s' = world (Device.volume_only)
       ∧ logcat s' = logcat (Device.volume_only) ++ [(ERROR, msg)]).
Proof.
  assert (Hout : HifiMode ∉ mSupportedAdvancedFeatures
                              (self Device.volume_only)).
  { compute_done. }
  split; [exact Hout|].
  exact (unsupported_feature_is_inert _ HifiMode 2 Hout).
Defined.

Lemma supported_feature_values_witness :
  getSupportedAdvancedFeatureValues AVCVolume Device.ready
  = Some ([ {| range := Some {| min := -24; max := 0; step := 1 |};
               states := [] |} ], Device.ready)
  ∧ (∃ st, getSupportedAdvancedFeatureValues HifiMode Device.ready
           = Some ([st], Device.ready)
           ∧ states st = [ {| name := "Normal"; value := "0" |};
                           {| name := "High Impedance"; value := "1" |};
                           {| name := "AUX"; value := "2" |} ]
           ∧ (Text.strto_value ∘ Text.strtoimax ∘ value) <$> states st = [0; 1; 2])
  ∧ (∃ s', getSupportedAdvancedFeatureValues (OutOfEnum 7) Device.ready
           = Some ([], s')
           ∧ self s' = self Device.ready ∧ world s' = world Device.ready).
Proof.
  destruct (supported_feature_values Device.ready) as (Havc & Hhifi & Hnone).
  split; [apply Havc, ready_supports; by left|].
  split; [apply Hhifi, ready_supports; by right|].
  apply Hnone. compute_done.
Defined.

Lemma construction_without_codec_witness :
  dirs Device.unbound !! COMMON_ES9218_PATH
  = Some [ {| d_name := "bind"; d_is_directory := false |};
           {| d_name := "module"; d_is_directory := true |} ]
  ∧ Text.find "0048" COMMON_ES9218_PATH = None
  ∧ ∃ s, constructor (boot Device.unbound) = Some (tt, s)
         ∧ mDacBasePath (self s) = ""
         ∧ mSupportedAdvancedFeatures (self s) = []
         ∧ world s = Device.unbound
         ∧ ∀ (t : Sys) (feature : AdvancedFeature) (v : Z),
             self t = self s →
             getSupportedAdvancedFeatures t = Some ([[]], t)
             ∧ (∃ t', getSupportedAdvancedFeatureValues feature t = Some ([], t')
                      ∧ world t' = world t)
             ∧ (∃ t', getFeatureValue feature t = Some (Initialized (-1), t')
                      ∧ world t' = world t)
             ∧ (∃ t', setFeatureValue feature v t = Some (false, t')
                      ∧ world t' = world t).
Proof.
  assert (Hd : dirs Device.unbound !! COMMON_ES9218_PATH
               = Some [ {| d_name := "bind"; d_is_directory := false |};
                        {| d_name := "module"; d_is_directory := true |} ])
    by (vm_compute; reflexivity).
  assert (Hp : Text.find "0048" COMMON_ES9218_PATH = None) by reflexivity.
  split; [exact Hd|]. split; [exact Hp|].
  apply (construction_without_codec Device.unbound _ Hd Hp).
  intros entry Hin Hdir. rewrite !elem_of_cons, elem_of_nil in Hin.
  destruct Hin as [->|[->|[]]]; [discriminate Hdir | reflexivity].
Defined.

Lemma supported_list_invariant_witness :
  constructor (boot Device.sysfs) = Some (tt, Device.ready)
  ∧ mSupportedAdvancedFeatures (self Device.ready) = [AVCVolume; HifiMode]
  ∧ (∀ feature,
       feature ∈ mSupportedAdvancedFeatures (self Device.ready)
       ↔ ∃ path, control_file (self Device.ready) feature = Some path
                 ∧ fs_exists Device.sysfs path = true)
  ∧ sublist (mSupportedAdvancedFeatures (self Device.ready)) [AVCVolume; HifiMode].
Proof.
  split; [apply ready_constructed|].
  split; [reflexivity|].
  destruct (supported_list_invariant Device.sysfs Device.ready ready_constructed)
    as (Hiff & Hsub & _).
  split; [exact Hiff | exact Hsub].
Defined.

Lemma unreadable_property_gives_default_witness :
  AVCVolume ∈ mSupportedAdvancedFeatures (self Device.ready)
  ∧ unreadable (Device.garbled (world Device.ready)) PROPERTY_HIFI_DAC_AVC_VOLUME
  ∧ ∃ s', getFeatureValue AVCVolume
            (with_world (Device.garbled (world Device.ready)) Device.ready)
          = Some (Initialized (-14), s')
          ∧ world s' = Device.garbled (world Device.ready).
Proof.
  assert (Hin : AVCVolume ∈ mSupportedAdvancedFeatures (self Device.ready))
    by (apply ready_supports; by left).
  assert (Hbad : unreadable (Device.garbled (world Device.ready))
                            PROPERTY_HIFI_DAC_AVC_VOLUME).
  { right. exists "loud". split; [vm_compute; reflexivity | reflexivity]. }
  split; [exact Hin|]. split; [exact Hbad|].
  apply (unreadable_property_gives_default
           (with_world (Device.garbled (world Device.ready)) Device.ready)
           AVCVolume PROPERTY_HIFI_DAC_AVC_VOLUME (-14) Hin); [|exact Hbad].
  left. repeat split.
Defined.

Lemma getFeatureValue_is_initialized_witness :
  constructed (self Device.ready)
  ∧ (∀ feature, feature ∈ mSupportedAdvancedFeatures (self Device.ready) →
                feature = AVCVolume ∨ feature = HifiMode)
  ∧ (∃ n t, getFeatureValue (OutOfEnum 7) Device.ready = Some (Initialized n, t)
            ∧ int32 n)
  ∧ (∃ n t, getFeatureValue HifiMode Device.ready = Some (Initialized n, t)
            ∧ int32 n).
Proof.
  destruct (getFeatureValue_is_initialized (self Device.ready) ready_is_constructed)
    as (Hknown & Hget & _).
  split; [exact ready_is_constructed|]. split; [exact Hknown|].
  split.
  - exact (Hget (OutOfEnum 7) (world Device.ready) (logcat Device.ready)).
  - exact (Hget HifiMode (world Device.ready) (logcat Device.ready)).
Defined.

Lemma setFeatureValue_does_not_validate_witness :
  constructed (self Device.ready)
  ∧ HifiMode ∈ mSupportedAdvancedFeatures (self Device.ready)
  ∧ int32 7 ∧ int32 1
  ∧ sends (facing (self Device.ready) (world Device.ready) []) HifiMode 7 7
  ∧ Text.strto_value (Text.strtoimax (Text.to_string 7)) = 7
  ∧ fst <$> setFeatureValue HifiMode 7
              (facing (self Device.ready) (world Device.ready) [])
    = fst <$> setFeatureValue HifiMode 1
                (facing (self Device.ready) (world Device.ready) []).
Proof.
  assert (Hin : HifiMode ∈ mSupportedAdvancedFeatures (self Device.ready))
    by (apply ready_supports; by right).
  assert (H7 : int32 7) by (unfold int32, INT32_MIN, INT32_MAX; lia).
  assert (H1 : int32 1) by (unfold int32, INT32_MIN, INT32_MAX; lia).
  split; [exact ready_is_constructed|]. do 3 (split; [assumption|]).
  exact (setFeatureValue_does_not_validate (self Device.ready)
           (world Device.ready) [] HifiMode 7 1 ready_is_constructed Hin H7 H1).
Defined.

(** * The model at work *)

Example to_string_neg10 : Text.to_string (-10) = "-10".
Proof. reflexivity. Qed.

Example to_string_int32_min : Text.to_string INT32_MIN = "-2147483648".
Proof. reflexivity. Qed.

Example strtoimax_neg24 :
  Text.strtoimax "-24"
  = {| Text.strto_value := -24; Text.strto_erange := false;
       Text.strto_end_is_buf := false |}.
Proof. reflexivity. Qed.

Example strtoimax_hex : Text.strto_value (Text.strtoimax "  0x1F") = 31.
Proof. reflexivity. Qed.

Example strtoimax_trailing_text : Text.strto_value (Text.strtoimax "12abc") = 12.
Proof. reflexivity. Qed.

Example strtoimax_no_number : Text.strto_end_is_buf (Text.strtoimax "loud") = true.
Proof. reflexivity. Qed.

Example find_codec_directory :
  Text.find "0048" "/sys/bus/i2c/drivers/es9218-codec/6-0048" = Some 36%nat.
Proof. reflexivity. Qed.

Example wrap32_negates_int32_min : wrap32 ((-1) * INT32_MIN) = INT32_MIN.
Proof. reflexivity. Qed.

Example constructor_resynchronises_kernel :
  io (world Device.ready)
  = [ WriteFile "/sys/bus/i2c/drivers/es9218-codec/6-0048/avc_volume" "14";
      SetProperty "persist.vendor.lge.audio.hifi_adv.avc_volume" "-14";
      WriteFile "/sys/bus/i2c/drivers/es9218-codec/6-0048/headset_type" "0";
      SetProperty "persist.vendor.lge.audio.hifi_adv.mode" "0" ].
Proof. vm_compute. reflexivity. Qed.

Example default_branch_returns_the_local :
  ∃ t, getFeatureValue (OutOfEnum 7) Device.stray = Some (Uninitialized, t).
Proof. by eexists. Qed.


(** * The further properties on the example device *)

Lemma device_keys_differ : PROPERTY_HIFI_DAC_AVC_VOLUME ≠ PROPERTY_HIFI_DAC_MODE.
Proof. discriminate. Defined.


Lemma device_paths_differ :
  avcPath (self Device.ready) ≠ hifiPath (self Device.ready).
Proof. discriminate. Defined.

Lemma constructor_takes_first_match_witness :
  dirs Device.sysfs !! COMMON_ES9218_PATH
  = Some ([ {| d_name := "bind"; d_is_directory := false |} ]
          ++ {| d_name := "6-0048"; d_is_directory := true |}
          :: [ {| d_name := "module"; d_is_directory := true |} ])
  ∧ ∃ s, constructor (boot Device.sysfs) = Some (tt, s)
         ∧ mDacBasePath (self s)
           = path_append COMMON_ES9218_PATH "6-0048"
         ∧ avcPath (self s) = mDacBasePath (self s) +:+ AVC_VOLUME
         ∧ hifiPath (self s) = mDacBasePath (self s) +:+ HIFI_MODE.
Proof.
  assert (Hd : dirs Device.sysfs !! COMMON_ES9218_PATH
               = Some ([ {| d_name := "bind"; d_is_directory := false |} ]
                       ++ {| d_name := "6-0048"; d_is_directory := true |}
                       :: [ {| d_name := "module"; d_is_directory := true |} ]))
    by (vm_compute; reflexivity).
  split; [exact Hd|].
  apply (constructor_takes_first_match Device.sysfs _
           {| d_name := "6-0048"; d_is_directory := true |} _ Hd).
  - intros e He. apply list_elem_of_singleton in He as ->. by left.
  - reflexivity.
  - vm_compute. by eexists.
Defined.


Lemma constructor_frame_witness :
  constructor (boot Device.sysfs) = Some (tt, Device.ready)
  ∧ dirs (world Device.ready) = dirs Device.sysfs
  ∧ (∀ p, fs_exists (world Device.ready) p = fs_exists Device.sysfs p).
Proof.
  split; [apply ready_constructed|].
  destruct (constructor_frame Device.sysfs Device.ready ready_constructed)
    as (Hdirs & Hex & _).
  split; [exact Hdirs | exact Hex].
Defined.



Lemma setFeatureValue_leaves_other_feature_witness :
  constructed (self Device.ready)
  ∧ AVCVolume ∈ mSupportedAdvancedFeatures (self Device.ready)
  ∧ HifiMode ≠ AVCVolume
  ∧ ∃ b s1,
      setFeatureValue AVCVolume (-3)
        (facing (self Device.ready) (world Device.ready) [])
      = Some (b, s1)
      ∧ fst <$> getFeatureValue HifiMode s1
        = fst <$> getFeatureValue HifiMode
                    (facing (self Device.ready) (world Device.ready) [])
      ∧ (∀ p, control_file (self Device.ready) HifiMode = Some p →
              files (world s1) !! p = files (world Device.ready) !! p).
Proof.
  assert (Hin : AVCVolume ∈ mSupportedAdvancedFeatures (self Device.ready))
    by (apply ready_supports; by left).
  assert (Hne : HifiMode ≠ AVCVolume) by discriminate.
  split; [exact ready_is_constructed|]. split; [exact Hin|]. split; [exact Hne|].
  exact (setFeatureValue_leaves_other_feature (self Device.ready)
           (world Device.ready) [] AVCVolume HifiMode (-3)
           ready_is_constructed Hin Hne device_keys_differ device_paths_differ).
Defined.

Lemma oversized_property_gives_default_witness :
  AVCVolume ∈ mSupportedAdvancedFeatures (self Device.ready)
  ∧ ¬ int32 3000000000
  ∧ props (Device.oversized (world Device.ready)) !! PROPERTY_HIFI_DAC_AVC_VOLUME
    = Some (Text.to_string 3000000000)
  ∧ ∃ s', getFeatureValue AVCVolume
            (with_world (Device.oversized (world Device.ready)) Device.ready)
          = Some (Initialized (-14), s').
Proof.
  assert (Hin : AVCVolume ∈ mSupportedAdvancedFeatures (self Device.ready))
    by (apply ready_supports; by left).
  assert (Hout : ¬ int32 3000000000)
    by (unfold int32, INT32_MIN, INT32_MAX; lia).
  assert (Hw : props (Device.oversized (world Device.ready))
                 !! PROPERTY_HIFI_DAC_AVC_VOLUME
               = Some (Text.to_string 3000000000))
    by (vm_compute; reflexivity).
  split; [exact Hin|]. split; [exact Hout|]. split; [exact Hw|].
  exact (oversized_property_gives_default
           (with_world (Device.oversized (world Device.ready)) Device.ready)
           AVCVolume PROPERTY_HIFI_DAC_AVC_VOLUME (-14) 3000000000
           Hin eq_refl Hout Hw).
Defined.

Lemma listed_features_are_described_witness :
  constructed (self Device.ready)
  ∧ ∃ listed,
      getSupportedAdvancedFeatures
        (facing (self Device.ready) (world Device.ready) [])
      = Some ([listed], facing (self Device.ready) (world Device.ready) [])
      ∧ ∀ feature,
          feature ∈ listed
          ↔ ∃ st t, getSupportedAdvancedFeatureValues feature
                      (facing (self Device.ready) (world Device.ready) [])
                    = Some ([st], t).
Proof.
  split; [exact ready_is_constructed|].
  exact (listed_features_are_described (self Device.ready)
           (world Device.ready) [] ready_is_constructed).
Defined.

Lemma setFeatureValue_ignores_the_file_witness :
  constructed (self Device.ready)
  ∧ AVCVolume ∈ mSupportedAdvancedFeatures (self Device.ready)
  ∧ ∃ path b s1 s1',
      control_file (self Device.ready) AVCVolume = Some path
      ∧ setFeatureValue AVCVolume (-5)
          (facing (self Device.ready) (Device.sealed (world Device.ready)) [])
        = Some (b, s1)
      ∧ setFeatureValue AVCVolume (-5)
          (facing (self Device.ready) (world Device.ready) [])
        = Some (b, s1')
      ∧ props (world s1) = props (world s1')
      ∧ (writable (Device.sealed (world Device.ready)) path = false →
         files (world s1) = files (Device.sealed (world Device.ready))).
Proof.
  assert (Hin : AVCVolume ∈ mSupportedAdvancedFeatures (self Device.ready))
    by (apply ready_supports; by left).
  split; [exact ready_is_constructed|]. split; [exact Hin|].
  exact (setFeatureValue_ignores_the_file (self Device.ready)
           (Device.sealed (world Device.ready)) (world Device.ready) [] []
           AVCVolume (-5) ready_is_constructed Hin eq_refl eq_refl).
Defined.

Lemma construction_is_idempotent_witness :
  constructor (boot Device.sysfs) = Some (tt, Device.ready)
  ∧ ∃ s', constructor (boot (world Device.ready)) = Some (tt, s')
          ∧ self s' = self Device.ready
          ∧ files (world s') = files (world Device.ready)
          ∧ props (world s') = props (world Device.ready).
Proof.
  split; [apply ready_constructed|].
  exact (construction_is_idempotent Device.sysfs Device.ready
           ready_constructed device_keys_differ).
Defined.
